(** * CODA / ScienceBoard task orchestration: a shallow embedding

    The development follows [sci/base/task.py] (Task.eval, Task.predict,
    Task._step, Task.init), [sci/base/utils.py] (TypeSort) and
    [sci/Tester.py] (Counter, TaskGroup, Tester).

    Python integers are [Z], Python lists are [list], the JSON objects of
    a task definition are finite maps from keys to values, and raised
    exceptions are explicit constructors of the result types. *)

From Stdlib Require Import ZArith List String Bool Lia.
From stdpp Require Import base option list gmap strings.
Import ListNotations.

Local Open Scope string_scope.
Local Open Scope list_scope.

(** Exceptions the modelled code can raise. *)
Inductive exn :=
| KeyError (key : string)
| IndexError
| TypeError
| AssertionError (msg : string)
| ZeroDivisionError
| PlannedNotImplemented.

Global Instance exn_eq_dec : EqDecision exn.
Proof. solve_decision. Defined.

(** Values stored in a JSON object of a task definition, as far as
    [Task.eval] looks at them: strings, lists of strings and integers. *)
Inductive value :=
| VStr (s : string)
| VList (l : list string)
| VInt (z : Z).

Global Instance value_eq_dec : EqDecision value.
Proof. solve_decision. Defined.

(** ** Task.eval *)
Module Eval.

(** [Task.EARLY_STOP]. *)
Definition EARLY_STOP : string := "stop".

(** Modelled from the spec: [Primitive.ANS.__name__]; class [Primitive]
    lives in [base/agent.py], which is not part of the sources at hand.
    The name of a static method is its attribute name. *)
Definition ANS : string := "ANS".

(** One entry of [self.evaluate]: a JSON object. *)
Abbreviation eval_item := (gmap string value).

(** The result of one call: a returned verdict or a raised exception. *)
Inductive result :=
| Return (verdict : bool)
| Raise (e : exn).

Global Instance result_eq_dec : EqDecision result.
Proof. solve_decision. Defined.

(** What one pass of the loop body does with [eval_item]:
    the four branches of the [if]/[elif] chain, and the [KeyError] of a
    subscript on a missing key. *)
Inductive action :=
| Skip                (* eval_index += 1 *)
| Fail                (* return False *)
| Consume             (* del self.evaluate[eval_index] *)
| Throw (e : exn).

Definition branch (stop_type : string) (stop_args : list string)
    (item : eval_item) : action :=
  match item !! "type" with
  | None => Throw (KeyError "type")
  | Some ty =>
    if negb (bool_decide (ty = VStr EARLY_STOP)) then Skip
    else
      match item !! "value" with
      | None => Throw (KeyError "value")
      | Some v =>
        if negb (bool_decide (v = VStr stop_type)) then Fail
        else if bool_decide (v = VStr ANS) then
          match item !! "args" with
          | None => Throw (KeyError "args")
          | Some a =>
            if negb (bool_decide (a = VList stop_args)) then Fail
            else Consume
          end
        else Consume
      end
  end.

(** The [while eval_index < len(self.evaluate)] loop and the test after
    it.  The state is [(eval_index, self.evaluate)]; the final list is
    returned with the result because the list is mutated in place.
    [None] means the fuel ran out. *)
Fixpoint eval_loop (fuel : nat) (stop_type : string) (stop_args : list string)
    (eval_index : nat) (evaluate : list eval_item)
    : option (result * list eval_item) :=
  match fuel with
  | O => None
  | S fuel' =>
    match evaluate !! eval_index with
    | None =>
      if (0 <? length evaluate)%nat
      then Some (Raise PlannedNotImplemented, evaluate)
      else Some (Return true, evaluate)
    | Some item =>
      match branch stop_type stop_args item with
      | Skip => eval_loop fuel' stop_type stop_args (S eval_index) evaluate
      | Fail => Some (Return false, evaluate)
      | Consume =>
        eval_loop fuel' stop_type stop_args eval_index (delete eval_index evaluate)
      | Throw e => Some (Raise e, evaluate)
      end
    end
  end.

(** [Task.eval]: every pass either advances the index or shortens the
    list, so [len(self.evaluate) + 1] passes are enough. *)
Definition eval (stop_type : string) (stop_args : list string)
    (evaluate : list eval_item) : option (result * list eval_item) :=
  eval_loop (S (length evaluate)) stop_type stop_args 0 evaluate.

(** The checks of [Task.__check_config] on one entry of ["evaluate"]
    (the test [hasattr(Primitive, value)] needs class [Primitive] and is
    left out). *)
Definition check_config_item (item : eval_item) : bool :=
  match item !! "type" with
  | None => false
  | Some ty =>
    if bool_decide (ty = VStr EARLY_STOP) then
      match item !! "value" with
      | Some (VStr v) =>
        if bool_decide (v = ANS) then
          match item !! "args" with
          | Some (VList _) => true
          | _ => false
          end
        else true
      | _ => false
      end
    else true
  end.

(** Rules of the early-stop kind and of the domain-specific kind. *)
Definition is_early_stop (item : eval_item) : bool :=
  bool_decide (item !! "type" = Some (VStr EARLY_STOP)).

Definition is_domain (item : eval_item) : bool :=
  match item !! "type" with
  | Some ty => negb (bool_decide (ty = VStr EARLY_STOP))
  | None => false
  end.

(** An early-stop rule agrees with the stop signal. *)
Definition matches (stop_type : string) (stop_args : list string)
    (item : eval_item) : bool :=
  bool_decide (item !! "value" = Some (VStr stop_type))
  && (negb (bool_decide (stop_type = ANS))
      || bool_decide (item !! "args" = Some (VList stop_args))).

(** Constructors of rules, for the scenarios. *)
Definition stop_rule (v : string) : eval_item :=
  <["type" := VStr EARLY_STOP]> (<["value" := VStr v]> ∅).

Definition ans_rule (args : list string) : eval_item :=
  <["type" := VStr EARLY_STOP]>
    (<["value" := VStr ANS]> (<["args" := VList args]> ∅)).

Definition domain_rule (ty : string) (key : string) : eval_item :=
  <["type" := VStr ty]> (<["key" := VStr key]> ∅).

(** The scan as a recursion on the part of the list not yet visited;
    [kept] holds the domain rules passed so far. *)
Fixpoint scan (stop_type : string) (stop_args : list string)
    (kept rest : list eval_item) : result * list eval_item :=
  match rest with
  | [] =>
    if (0 <? length kept)%nat
    then (Raise PlannedNotImplemented, kept)
    else (Return true, kept)
  | item :: rest' =>
    match branch stop_type stop_args item with
    | Skip => scan stop_type stop_args (kept ++ [item]) rest'
    | Fail => (Return false, kept ++ item :: rest')
    | Consume => scan stop_type stop_args kept rest'
    | Throw e => (Raise e, kept ++ item :: rest')
    end
  end.

End Eval.

(** ** Task._step *)
Module Step.

(** Modelled from the spec: a Code Action ([CodeLike] of [base/agent.py],
    which is not part of the sources at hand) is opaque; what
    [code_like(self.manager, self.primitives)] does is all that
    [Task._step] sees of it.  The call returns [True], [False] or [None]
    (any value that is not a boolean counts as [None] here), or raises
    [Primitive.PlannedTermination] with a stop signal. *)
Inductive invocation :=
| Returns (item : option bool)
| Terminates (stop_type : string) (stop_args : list string).

(** One element of [response_codes]: a Code Action, or (debug mode) a
    list of them. *)
Inductive response_code :=
| Code (code_like : invocation)
| Batch (codes : list invocation).

(** How a call of [Task._step] ends. *)
Inductive step_result :=
| Liquid (invalid : bool)                       (* the returned bool *)
| Stopped (stop_type : string) (stop_args : list string)
| Failed (e : exn).

(** [all([item is False for item in results])]. *)
Definition all_false (results : list (option bool)) : bool :=
  forallb (fun item => bool_decide (item = Some false)) results.

(** The [for code_like in ...: results.append(code_like(...))] loop of
    the plain path; a list in the place of a Code Action is not
    callable. *)
Fixpoint run_codes (response_codes : list response_code)
    (results : list (option bool)) : step_result + list (option bool) :=
  match response_codes with
  | [] => inr results
  | Code (Returns item) :: rest => run_codes rest (results ++ [item])
  | Code (Terminates stop_type stop_args) :: _ =>
    inl (Stopped stop_type stop_args)
  | Batch _ :: _ => inl (Failed TypeError)
  end.

(** The same loop over one batch of the debug path. *)
Fixpoint run_batch (response_code : list invocation)
    (results : list (option bool)) : step_result + list (option bool) :=
  match response_code with
  | [] => inr results
  | Returns item :: rest => run_batch rest (results ++ [item])
  | Terminates stop_type stop_args :: _ => inl (Stopped stop_type stop_args)
  end.

(** The debug path: [results] is set to [[]] anew for every batch, and
    the value returned after the loop looks at the last batch only. *)
Fixpoint run_batches (response_codes : list response_code)
    (results : list (option bool)) : step_result :=
  match response_codes with
  | [] => Liquid (all_false results)
  | Batch response_code :: rest =>
    match run_batch response_code [] with
    | inl stop => stop
    | inr results' => run_batches rest results'
    end
  | Code _ :: _ => Failed TypeError
  end.

(** [Task._step], from the value the action-proposing collaborator
    returned on.  [single_step] is [os.getenv("SINGLE_STEP", "0") == "1"].
    [response_codes[0]] raises [IndexError] on the empty list. *)
Definition _step (single_step : bool) (response_codes : list response_code)
    : step_result :=
  match response_codes with
  | [] => Failed IndexError
  | Batch _ :: _ =>
    if single_step then run_batches response_codes []
    else Failed (AssertionError "")
  | Code _ :: _ =>
    match run_codes response_codes [] with
    | inl stop => stop
    | inr results => Liquid (all_false results)
    end
  end.

End Step.

(** ** Task.predict *)
Module Predict.
Import Step.

Local Open Scope Z_scope.

(** Modelled from the spec: [Primitive.TIMEOUT], named by its attribute
    name; class [Primitive] is not part of the sources at hand. *)
Definition TIMEOUT : string := "TIMEOUT".

(** The variables of the loop: [liquid], [step_index], [self.steps]. *)
Record state := { liquid : Z; step_index : Z; steps : Z }.

(** What [predict] returns or raises. *)
Inductive outcome :=
| Signal (stop_type : string) (stop_args : list string)
| Error (e : exn).

Section Loop.
(** [self.penalty], [(2147438648, 0)] when the task definition has
    none. *)
Variable penalty : Z * Z.
(** The action-proposing collaborator: its answer to
    [steps=(step_index, self.steps)]. *)
Variable community : Z * Z -> list response_code.
Variable single_step : bool.

(** The loop body after [invalid = self._step(step_index)]. *)
Definition body (st : state) (invalid : bool) : state :=
  let step_index := step_index st + 1 in
  let liquid := liquid st + (if invalid then 1 else 0) in
  if liquid >=? fst penalty
  then {| liquid := 0; step_index := step_index;
          steps := steps st - snd penalty |}
  else {| liquid := liquid; step_index := step_index; steps := steps st |}.

(** [while step_index < self.steps: ...], then [return TIMEOUT, []];
    [PlannedTermination] ends the loop with its signal, any other
    exception leaves [predict]. *)
Fixpoint predict_loop (fuel : nat) (st : state) : option (outcome * state) :=
  match fuel with
  | O => None
  | S fuel' =>
    if step_index st <? steps st then
      match _step single_step (community (step_index st, steps st)) with
      | Liquid invalid => predict_loop fuel' (body st invalid)
      | Stopped stop_type stop_args => Some (Signal stop_type stop_args, st)
      | Failed e => Some (Error e, st)
      end
    else Some (Signal TIMEOUT [], st)
  end.

(** [Task.predict] for a task with step budget [self.steps]. *)
Definition predict (steps0 : Z) : option (outcome * state) :=
  predict_loop (S (Z.to_nat steps0))
    {| liquid := 0; step_index := 0; steps := steps0 |}.

(** The state after the passes whose [_step] results are [invalids],
    first pass first. *)
Definition passes (invalids : list bool) (st : state) : state :=
  fold_left body invalids st.

(** The number of liquid steps in a row at the end of the passes made
    so far, counted from the last time the tally was set to zero:
    a step that is not liquid starts the count anew. *)
Definition in_a_row (st : state) (row : Z) (invalid : bool) : Z :=
  if liquid st + (if invalid then 1 else 0) >=? fst penalty then 0
  else if invalid then row + 1 else 0.

Fixpoint passes_in_a_row (invalids : list bool) (st : state) (row : Z) : Z :=
  match invalids with
  | [] => row
  | invalid :: rest =>
    passes_in_a_row rest (body st invalid) (in_a_row st row invalid)
  end.
End Loop.

End Predict.

(** ** Tester.__traverse: the shard of one process *)
Module Shard.

Local Open Scope Z_scope.

(** [start] and [end] as computed from [total_files = len(all_pth)],
    [SPLITE] and [INDEX]; [//] and [%] are floor division and its
    remainder, which is what [Z.div] and [Z.modulo] are. *)
Definition bounds (total_files SPLITE INDEX : Z) : exn + Z * Z :=
  if SPLITE =? 0 then inl ZeroDivisionError
  else
    let base_size := total_files / SPLITE in
    let remainder := total_files mod SPLITE in
    let '(start, end_) :=
      if INDEX <? remainder then
        let start := INDEX * (base_size + 1) in
        (start, start + base_size + 1)
      else
        let start :=
          remainder * (base_size + 1) + (INDEX - remainder) * base_size in
        (start, start + base_size) in
    let end_ := Z.min end_ total_files in
    inr (start, end_).

(** A Python slice [l[start:stop]]: a negative index counts from the end,
    and both indices are clipped to the list. *)
Definition slice {A : Type} (l : list A) (start stop : Z) : list A :=
  let n := Z.of_nat (length l) in
  let clip i := if i <? 0 then Z.max (i + n) 0 else Z.min i n in
  firstn (Z.to_nat (clip stop - clip start))
         (skipn (Z.to_nat (clip start)) l).

(** [selected_pth = all_pth[start:end]]. *)
Definition selected_pth {A : Type} (all_pth : list A) (SPLITE INDEX : Z)
    : exn + list A :=
  match bounds (Z.of_nat (length all_pth)) SPLITE INDEX with
  | inl e => inl e
  | inr (start, end_) => inr (slice all_pth start end_)
  end.

(** The size of the slice of shard [INDEX], zero when [bounds] raises. *)
Definition size (total_files SPLITE INDEX : Z) : Z :=
  match bounds total_files SPLITE INDEX with
  | inl _ => 0
  | inr (start, end_) => end_ - start
  end.

(** The slices of the shards [0 .. count - 1] of a run with [SPLITE]
    processes, one after the other. *)
Definition shards {A : Type} (all_pth : list A) (SPLITE : Z) (count : nat)
    : list (exn + list A) :=
  map (fun INDEX => selected_pth all_pth SPLITE (Z.of_nat INDEX))
      (seq 0 count).

(** The items of the slices that were computed, in shard order. *)
Definition joined {A : Type} (slices : list (exn + list A)) : list A :=
  flat_map (fun s => match s with inl _ => [] | inr l => l end) slices.

End Shard.

(** ** TypeSort and TaskGroup.__init__ *)
Module Group.

(** [TypeSort.Sort], an [Enum]; [name] is the member's name. *)
Inductive Sort := Raw | VM.

Global Instance Sort_eq_dec : EqDecision Sort.
Proof. solve_decision. Defined.

Definition name (s : Sort) : string :=
  match s with Raw => "Raw" | VM => "VM" end.

(** The dataclass [TypeSort]. *)
Record TypeSort := { type : string; sort : Sort }.

(** [TypeSort.__repr__]. *)
Definition __repr__ (self : TypeSort) : string :=
  if bool_decide (sort self = VM) then name (sort self)
  else (name (sort self) ++ ":" ++ type self)%string.

(** [TypeSort.__eq__]: equality of the two [__repr__] strings. *)
Definition __eq__ (self __value : TypeSort) : bool :=
  bool_decide (__repr__ self = __repr__ __value).

(** A session-owning collaborator; [vmanager] tells whether [VManager]
    is among the classes of its class. *)
Record Manager := { manager_id : nat; vmanager : bool }.

Global Instance Manager_eq_dec : EqDecision Manager.
Proof. solve_decision. Defined.

(** A task descriptor, as far as grouping and scheduling look at it:
    [ident], [task.type_sort] and [task.manager]. *)
Record TaskInfo :=
  { ident : string; type_sort : TypeSort; manager : Manager }.

(** [self.groups[-1].append(task_info)]; [None] is the [IndexError] of
    [self.groups[-1]] on an empty list. *)
Fixpoint append_to_last (groups : list (list TaskInfo)) (task_info : TaskInfo)
    : option (list (list TaskInfo)) :=
  match groups with
  | [] => None
  | [group] => Some [group ++ [task_info]]
  | group :: rest =>
    match append_to_last rest task_info with
    | Some rest' => Some (group :: rest')
    | None => None
    end
  end.

(** One pass of [for task_info in raw] on the state
    [(self.groups, last_info)]. *)
Definition init_pass (st : exn + list (list TaskInfo) * option TaskInfo)
    (task_info : TaskInfo) : exn + list (list TaskInfo) * option TaskInfo :=
  match st with
  | inl e => inl e
  | inr (groups, last_info) =>
    match last_info with
    | Some last =>
      if __eq__ (type_sort task_info) (type_sort last) then
        match append_to_last groups task_info with
        | Some groups' => inr (groups', Some task_info)
        | None => inl IndexError
        end
      else inr (groups ++ [[task_info]], Some task_info)
    | None => inr (groups ++ [[task_info]], Some task_info)
    end
  end.

(** [TaskGroup.__init__]: the value of [self.groups]. *)
Definition TaskGroup_init (raw : list TaskInfo) : exn + list (list TaskInfo) :=
  match fold_left init_pass raw (inr ([], None)) with
  | inl e => inl e
  | inr (groups, _) => inr groups
  end.

(** The runs of a list that starts with [last]: the rest of the first
    run, and the runs after it. *)
Fixpoint runs_from (last : TaskInfo) (raw : list TaskInfo)
    : list TaskInfo * list (list TaskInfo) :=
  match raw with
  | [] => ([], [])
  | task_info :: rest =>
    let '(run, runs) := runs_from task_info rest in
    if __eq__ (type_sort task_info) (type_sort last)
    then (task_info :: run, runs)
    else ([], (task_info :: run) :: runs)
  end.

Definition runs (raw : list TaskInfo) : list (list TaskInfo) :=
  match raw with
  | [] => []
  | task_info :: rest =>
    let '(run, runs) := runs_from task_info rest in (task_info :: run) :: runs
  end.

(** All members of a group have keys that [TypeSort.__eq__] takes for
    equal. *)
Definition same_key (group : list TaskInfo) : Prop :=
  forall a b, In a group -> In b group ->
              __eq__ (type_sort a) (type_sort b) = true.

(** Where one group ends and the next starts, the key changes. *)
Definition key_changes (group next : list TaskInfo) : Prop :=
  forall a b, last group = Some a -> head next = Some b ->
              __eq__ (type_sort b) (type_sort a) = false.

Fixpoint maximal_runs (groups : list (list TaskInfo)) : Prop :=
  match groups with
  | [] => True
  | group :: rest =>
    group <> [] /\ same_key group
    /\ match rest with [] => True | next :: _ => key_changes group next end
    /\ maximal_runs rest
  end.

End Group.

(** ** Counter, TaskGroup.__call__ and Tester.__call__ *)
Module Driver.
Import Group.

Local Open Scope Z_scope.

(** The dataclass [Counter]; the field [vlog] is the log sink and is left
    out. *)
Record Counter := { passed : Z; failed : Z; skipped : Z; ignored : Z }.

(** [Counter()]. *)
Definition Counter0 : Counter :=
  {| passed := 0; failed := 0; skipped := 0; ignored := 0 |}.

Definition _pass (self : Counter) : Counter :=
  {| passed := passed self + 1; failed := failed self;
     skipped := skipped self; ignored := ignored self |}.

Definition _fail (self : Counter) : Counter :=
  {| passed := passed self; failed := failed self + 1;
     skipped := skipped self; ignored := ignored self |}.

Definition _skip (self : Counter) : Counter :=
  {| passed := passed self; failed := failed self;
     skipped := skipped self + 1; ignored := ignored self |}.

Definition _ignore (self : Counter) : Counter :=
  {| passed := passed self; failed := failed self;
     skipped := skipped self; ignored := ignored self + 1 |}.

(** [total] of [Counter.__str__]. *)
Definition total (self : Counter) : Z :=
  passed self + failed self + skipped self + ignored self.

(** No count of [c'] is below the count of [c]. *)
Definition le_counter (c c' : Counter) : Prop :=
  passed c <= passed c' /\ failed c <= failed c'
  /\ skipped c <= skipped c' /\ ignored c <= ignored c'.

(** How [task_info()] ends: with a verdict, or with an exception of class
    [Exception]. *)
Inductive call_result :=
| Returned (verdict : bool)
| RaisedException.

(** What happens during a run, in order. *)
Inductive event :=
| Enter (m : Manager)                 (* manager.__enter__ *)
| Exit (m : Manager)                  (* manager.__exit__ *)
| Yield (task_info : TaskInfo)        (* the generator hands out a member *)
| Ran (task_info : TaskInfo) (r : call_result)
| Ignored (task_info : TaskInfo).

(** The members a trace hands out, in order. *)
Definition yields (trace : list event) : list TaskInfo :=
  flat_map (fun e => match e with Yield t => [t] | _ => [] end) trace.

(** The sessions a trace opens, and the ones it closes, in order. *)
Definition enters (trace : list event) : list Manager :=
  flat_map (fun e => match e with Enter m => [m] | _ => [] end) trace.

Definition exits (trace : list event) : list Manager :=
  flat_map (fun e => match e with Exit m => [m] | _ => [] end) trace.

(** [TaskGroup.__check] on one group and on all groups. *)
Definition check_group (group : list TaskInfo) : bool :=
  (0 <? length group)%nat
  && forallb (fun task_info =>
                match head group with
                | Some first =>
                  negb (negb (bool_decide (manager first = manager task_info)))
                  || (vmanager (manager first) && vmanager (manager task_info))
                | None => false
                end) group.

Definition TaskGroup_check (groups : list (list TaskInfo)) : bool :=
  forallb check_group groups.

(** The state of the run: the outside world (files, sessions), the
    events so far and the counter. *)
Record run_state (W : Type) :=
  { world : W; trace : list event; counter : Counter }.

Arguments world {W} _.
Arguments trace {W} _.
Arguments counter {W} _.

(** Where the generator of [TaskGroup.__call__] stands. *)
Inductive gen_state :=
| Created
    (* made by the call, body not started *)
| Suspended (entered : option Manager) (members : list TaskInfo)
            (rest : list (list TaskInfo))
    (* stopped at a [yield]; [entered] is the session of the enclosing
       [with], [members] are the members of the group still to come and
       [rest] the groups after it *)
| Finished.

(** What resuming the generator gives. *)
Inductive resumed (W : Type) :=
| Yielded (task_info : TaskInfo) (g : gen_state) (s : run_state W)
| StopIteration (s : run_state W)
| Raised (e : exn) (s : run_state W).

Arguments Yielded {W} _ _ _.
Arguments StopIteration {W} _.
Arguments Raised {W} _ _.

Section Run.
Variable W : Type.
(** [TaskInfo.snoop(base_path)]: the task has no result file yet. *)
Variable snoop : W -> TaskInfo -> bool.
(** [self.log(base_path, ident, ignore).__enter__()], which gives
    [result_exist], and its [__exit__]; class [Log] is not part of the
    sources at hand. *)
Variable log_enter : TaskInfo -> W -> bool * W.
Variable log_exit : TaskInfo -> W -> W.
(** [task_info()]. *)
Variable task_call : TaskInfo -> W -> call_result * W.
(** [__enter__] and [__exit__] of a session-owning collaborator. *)
Variables manager_enter manager_exit : Manager -> W -> W.
(** [self.ignore]: skip the tasks that have a result. *)
Variable ignore : bool.

Definition emit (e : event) (s : run_state W) : run_state W :=
  {| world := world s; trace := trace s ++ [e]; counter := counter s |}.

Definition enter (m : Manager) (s : run_state W) : run_state W :=
  {| world := manager_enter m (world s); trace := trace s ++ [Enter m];
     counter := counter s |}.

Definition leave (m : Manager) (s : run_state W) : run_state W :=
  {| world := manager_exit m (world s); trace := trace s ++ [Exit m];
     counter := counter s |}.

(** The body of the loop of [Tester.__call__] for one task. *)
Definition loop_body (task_info : TaskInfo) (s : run_state W) : run_state W :=
  let '(result_exist, w) := log_enter task_info (world s) in
  if result_exist then
    {| world := log_exit task_info w;
       trace := trace s ++ [Ignored task_info];
       counter := _ignore (counter s) |}
  else
    let '(r, w') := task_call task_info w in
    {| world := log_exit task_info w';
       trace := trace s ++ [Ran task_info r];
       counter := match r with
                  | Returned true => _pass (counter s)
                  | Returned false => _fail (counter s)
                  | RaisedException => _skip (counter s)
                  end |}.

(** The generator runs from the head of [for group in self.groups] to
    its next [yield]. *)
Fixpoint next_group (groups : list (list TaskInfo)) (s : run_state W)
    : resumed W :=
  match groups with
  | [] => StopIteration s
  | group :: rest =>
    let has_unfinished := existsb (snoop (world s)) group in
    if has_unfinished || negb ignore then
      match group with
      | [] => Raised IndexError s                    (* group[0] *)
      | first :: members =>
        Yielded first (Suspended (Some (manager first)) members rest)
                (emit (Yield first) (enter (manager first) s))
      end
    else
      match group with
      | [] => next_group rest s
      | first :: members =>
        Yielded first (Suspended None members rest) (emit (Yield first) s)
      end
  end.

(** [next(generator)]. *)
Definition next (groups : list (list TaskInfo)) (g : gen_state)
    (s : run_state W) : resumed W :=
  match g with
  | Created =>
    if TaskGroup_check groups then next_group groups s
    else Raised (AssertionError "") s
  | Suspended entered (task_info :: members) rest =>
    Yielded task_info (Suspended entered members rest)
            (emit (Yield task_info) s)
  | Suspended entered [] rest =>
    next_group rest match entered with
                    | Some m => leave m s
                    | None => s
                    end
  | Finished => StopIteration s
  end.

(** [for task_info in generator: ...]. *)
Fixpoint drive (fuel : nat) (groups : list (list TaskInfo)) (g : gen_state)
    (s : run_state W) : option (exn + run_state W) :=
  match fuel with
  | O => None
  | S fuel' =>
    match next groups g s with
    | Yielded task_info g' s' => drive fuel' groups g' (loop_body task_info s')
    | StopIteration s' => Some (inr s')
    | Raised e _ => Some (inl e)
    end
  end.

(** [Tester.__call__] with the fresh counter of [_log_handler]:
    [self.task_group] holds [groups], [self.task_info] the plain list. *)
Definition Tester_call (optimize : bool) (groups : list (list TaskInfo))
    (task_info : list TaskInfo) (w : W) : option (exn + run_state W) :=
  let s := {| world := w; trace := []; counter := Counter0 |} in
  if optimize
  then drive (S (length (concat groups))) groups Created s
  else Some (inr (fold_left (fun s t => loop_body t s) task_info s)).

(** The members of one group are handed out and run one after the
    other. *)
Definition run_members (group : list TaskInfo) (s : run_state W)
    : run_state W :=
  fold_left (fun s t => loop_body t (emit (Yield t) s)) group s.

(** The iteration contract in the words of the specification: a group
    with an unfinished member, or any group when results are not skipped,
    runs between one [__enter__] and one [__exit__] of the session of its
    first member; a group whose members are all finished runs without
    them. *)
Fixpoint iteration_contract (groups : list (list TaskInfo)) (s : run_state W)
    : run_state W :=
  match groups with
  | [] => s
  | group :: rest =>
    if existsb (snoop (world s)) group || negb ignore then
      match head group with
      | Some first =>
        iteration_contract rest
          (leave (manager first) (run_members group (enter (manager first) s)))
      | None => s
      end
    else iteration_contract rest (run_members group s)
  end.

End Run.

End Driver.

(** ** Task.init *)
Module Init.

(** [Task.CONFIG_RETRY]. *)
Definition CONFIG_RETRY : nat := 5.

(** One entry of [self.initialize]: the name under ["func"] and the other
    keys, which are passed on as keyword arguments. *)
Record init_item := { func : string; kwargs : gmap string value }.

(** How a call of a handler ends: it returns a value, of which the loop
    looks at the truth value only, or it raises. *)
Inductive handler_result :=
| Gives (truth : bool)
| Throws.

Section Task.
(** The outside world: the session and what the handlers act on. *)
Variable W : Type.
(** A handler, called with keyword arguments. *)
Let handler : Type := gmap string value -> W -> handler_result * W.
(** [getattr(self, name)] for the methods of the task, and
    [getattr(init, name)] for the functions of the module [init];
    [None] when there is no such attribute. *)
Variable local_handlers : string -> option handler.
Variable global_handlers : string -> option handler.
(** [self.sort.lower()]: ["raw"] or ["vm"]. *)
Variable sort_lower : string.
(** [self._init()], which a task class may override; the method of the
    base class catches every exception and returns [False] then. *)
Variable _init : W -> bool * W.
Variable initialize : list init_item.

(** The inner function [func] of [init]: the handler of the task
    itself named [_<func>] if there is one, else the handler named
    [<sort>_<func>] of the module [init]; a missing handler is an
    [AttributeError], which is raised like any other. *)
Definition call_func (item : init_item) (w : W) : handler_result * W :=
  match local_handlers ("_" ++ func item)%string with
  | Some h => h (kwargs item) w
  | None =>
    match global_handlers (sort_lower ++ "_" ++ func item)%string with
    | Some h => h (kwargs item) w
    | None => (Throws, w)
    end
  end.

(** [for init_item in self.initialize: ...]; the value is [feedback]. *)
Fixpoint init_items (items : list init_item) (w : W) : bool * W :=
  match items with
  | [] => (true, w)
  | item :: rest =>
    match call_func item w with
    | (Gives true, w') => init_items rest w'
    | (_, w') => (false, w')            (* feedback = False; break *)
    end
  end.

(** [for _ in range(n): ...] followed by [return False]. *)
Fixpoint init_attempts (n : nat) (w : W) : bool * W :=
  match n with
  | O => (false, w)
  | S n' =>
    let '(ok, w1) := _init w in
    if negb ok then init_attempts n' w1                  (* continue *)
    else
      let '(feedback, w2) := init_items initialize w1 in
      if feedback then (true, w2) else init_attempts n' w2
  end.

(** [Task.init]; [available] is [self.available], which [_avail_handler]
    asserts. *)
Definition init (available : bool) (w : W) : exn + bool * W :=
  if available then inr (init_attempts CONFIG_RETRY w)
  else inl (AssertionError "").

(** The start of [Task.__call]: [assert self.init(), "Fail to initialize
    the task"], then the rest of the run. *)
Definition call_start {R : Type} (available : bool) (rest : W -> exn + R)
    (w : W) : exn + R :=
  match init available w with
  | inl e => inl e
  | inr (true, w') => rest w'
  | inr (false, _) => inl (AssertionError "Fail to initialize the task")
  end.

(** One attempt: the reset, then the entries. *)
Definition attempt (w : W) : bool * W :=
  let '(ok, w1) := _init w in
  if ok then init_items initialize w1 else (false, w1).

(** The world after [k] attempts. *)
Fixpoint after (k : nat) (w : W) : W :=
  match k with
  | O => w
  | S k' => after k' (snd (attempt w))
  end.

End Task.

End Init.

(** ** Task._stop_handler and Task._config_handler *)
Module Handlers.
Import Eval.

(** [_stop_wrapper] of [Task._stop_handler]: [Task.eval] first, and the
    evaluation [method] of the task class when that raises
    [PlannedNotImplemented]; [method] finds the list as [Task.eval] left
    it.  Any other exception leaves the wrapper. *)
Definition _stop_wrapper (method : list eval_item -> result)
    (stop_type : string) (stop_args : list string)
    (evaluate : list eval_item) : option (result * list eval_item) :=
  match eval stop_type stop_args evaluate with
  | Some (Raise PlannedNotImplemented, evaluate') =>
    Some (method evaluate', evaluate')
  | other => other
  end.

(** [_config_wrapper] of [Task._config_handler]: [method] is called on
    every entry whose type is not the early-stop type, in order; [S] is
    whatever [method] reads and writes, and an exception of [method]
    leaves the wrapper. *)
Fixpoint _config_wrapper {S : Type} (method : S -> eval_item -> exn + S)
    (evaluate : list eval_item) (s : S) : exn + S :=
  match evaluate with
  | [] => inr s
  | item :: rest =>
    match item !! "type" with
    | None => inl (KeyError "type")
    | Some ty =>
      if bool_decide (ty = VStr EARLY_STOP)
      then _config_wrapper method rest s                   (* continue *)
      else
        match method s item with
        | inl e => inl e
        | inr s' => _config_wrapper method rest s'
        end
    end
  end.

End Handlers.

(** ** Task.__call: prediction, then evaluation *)
Module TaskRun.
Import Step Predict Handlers.

(** The last two statements of [Task.__call] outside the debug mode:
    [stop_type, stop_args = self.predict()] and
    [return self.eval(stop_type, stop_args)], where [self.eval] is the
    evaluation of the task class wrapped by [Task._stop_handler].  An
    exception of [predict] leaves [__call]. *)
Definition predict_then_eval (penalty : Z * Z)
    (community : Z * Z -> list response_code) (single_step : bool)
    (steps0 : Z) (method : list Eval.eval_item -> Eval.result)
    (evaluate : list Eval.eval_item)
    : option (Eval.result * list Eval.eval_item) :=
  match predict penalty community single_step steps0 with
  | Some (Signal stop_type stop_args, _) =>
    _stop_wrapper method stop_type stop_args evaluate
  | Some (Error e, _) => Some (Eval.Raise e, evaluate)
  | None => None
  end.

End TaskRun.

(** ** The plan of a Tester: managers, order and groups *)
Module Plan.
Import Group.

(** [TypeSort.__str__]. *)
Definition __str__ (self : TypeSort) : string :=
  (type self ++ "_" ++ name (sort self))%string.

(** [TypeSort.__hash__], for the built-in [hash] of strings. *)
Definition __hash__ (hash : string -> Z) (self : TypeSort) : Z :=
  hash (__repr__ self).

(** [Tester.__manager]: the manager kept under [str(type_sort)] in
    [self.managers], or a new one, which is then kept; [spawn] stands for
    the look-up of the manager class and its arguments and the call of
    the class, which can raise. *)
Definition Tester_manager (spawn : TypeSort -> exn + Manager)
    (type_sort : TypeSort) (managers : gmap string Manager)
    : exn + Manager * gmap string Manager :=
  match managers !! __str__ type_sort with
  | Some manager => inr (manager, managers)
  | None =>
    match spawn type_sort with
    | inl e => inl e
    | inr manager => inr (manager, <[__str__ type_sort := manager]> managers)
    end
  end.

(** [TaskInfo.__lt__]: [task.sort] is the name of the sort, a string, and
    strings are compared character by character. *)
Definition __lt__ (self __value : TaskInfo) : bool :=
  let left := type_sort self in
  let right := type_sort __value in
  String.ltb (name (sort left)) (name (sort right))
  || (String.eqb (name (sort left)) (name (sort right))
      && String.ltb (type left) (type right)).

(** The built-in [sorted] on a list of task descriptors.  It is stable
    and compares with [__lt__] only; a stable sort has one possible
    result, which this insertion sort computes. *)
Fixpoint insert (x : TaskInfo) (l : list TaskInfo) : list TaskInfo :=
  match l with
  | [] => [x]
  | y :: l' => if __lt__ y x then y :: insert x l' else x :: y :: l'
  end.

Fixpoint sorted (l : list TaskInfo) : list TaskInfo :=
  match l with
  | [] => []
  | x :: l' => insert x (sorted l')
  end.

(** [self.task_group = TaskGroup(sorted(self.task_info))] in
    [Tester.__init__]. *)
Definition task_group (task_info : list TaskInfo)
    : exn + list (list TaskInfo) :=
  TaskGroup_init (sorted task_info).

End Plan.

(** * Theorems *)

(** ** Task.eval *)
Module EvalFacts.
Import Eval.

Section Scan.
Variables (stop_type : string) (stop_args : list string).

(** The index loop with in-place deletion computes [scan]. *)
Lemma eval_loop_scan (rest kept : list eval_item) (fuel : nat) :
  (length rest < fuel)%nat ->
  eval_loop fuel stop_type stop_args (length kept) (kept ++ rest)
  = Some (scan stop_type stop_args kept rest).
Proof.
  revert kept fuel.
  induction rest as [|item rest IH]; intros kept fuel Hfuel;
    destruct fuel as [|fuel]; try lia; cbn [eval_loop scan].
  - rewrite app_nil_r.
    rewrite (proj2 (lookup_ge_None kept (length kept))) by lia.
    destruct (0 <? length kept)%nat; reflexivity.
  - rewrite list_lookup_middle by reflexivity.
    destruct (branch stop_type stop_args item) eqn:Hb; try reflexivity.
    + replace (kept ++ item :: rest) with ((kept ++ [item]) ++ rest)
        by (rewrite <- app_assoc; reflexivity).
      replace (S (length kept)) with (length (kept ++ [item]))
        by (rewrite length_app; cbn; lia).
      apply IH. cbn in Hfuel. lia.
    + rewrite delete_middle. apply IH. cbn in Hfuel. lia.
Qed.

Lemma eval_scan (evaluate : list eval_item) :
  eval stop_type stop_args evaluate
  = Some (scan stop_type stop_args [] evaluate).
Proof.
  unfold eval. apply (eval_loop_scan evaluate []). lia.
Qed.

(** A rule accepted by [check_config_item] never makes the loop body
    raise. *)
Lemma branch_checked (item : eval_item) :
  check_config_item item = true ->
  branch stop_type stop_args item
  = if is_early_stop item
    then if matches stop_type stop_args item then Consume else Fail
    else Skip.
Proof.
  unfold check_config_item, branch, is_early_stop, matches.
  intros Hck.
  repeat case_match; repeat case_bool_decide; simplify_eq/=;
    congruence.
Qed.
End Scan.

Section Whole.
Variables (stop_type : string) (stop_args : list string).

Let ok (item : eval_item) : bool := matches stop_type stop_args item.

Lemma is_domain_checked (item : eval_item) :
  check_config_item item = true ->
  is_domain item = negb (is_early_stop item).
Proof.
  unfold check_config_item, is_domain, is_early_stop. intros Hck.
  repeat case_match; repeat case_bool_decide; simplify_eq/=; congruence.
Qed.

(** The verdict of [scan], and the list it leaves when no rule fails. *)
Lemma scan_verdict (rest kept : list eval_item) :
  Forall (fun item => check_config_item item = true) rest ->
  fst (scan stop_type stop_args kept rest)
  = (if forallb ok (List.filter is_early_stop rest)
     then if (0 <? length (kept ++ List.filter is_domain rest))%nat
          then Raise PlannedNotImplemented else Return true
     else Return false)
  /\ (forallb ok (List.filter is_early_stop rest) = true ->
      snd (scan stop_type stop_args kept rest)
      = kept ++ List.filter is_domain rest).
Proof.
  intros Hwf. revert kept.
  induction Hwf as [|item rest Hitem _ IH]; intros kept; cbn [scan].
  - cbn [List.filter forallb]. rewrite app_nil_r.
    destruct (0 <? length kept)%nat; split; reflexivity.
  - rewrite (branch_checked _ _ _ Hitem).
    cbn [List.filter]. rewrite (is_domain_checked _ Hitem).
    destruct (is_early_stop item); cbn [negb forallb].
    + fold (ok item). destruct (ok item); cbn [andb].
      * apply IH.
      * split; [reflexivity | discriminate].
    + destruct (IH (kept ++ [item])) as [IH1 IH2].
      rewrite <- app_assoc in IH1, IH2. cbn in IH1, IH2.
      split; assumption.
Qed.
End Whole.

(** C2.  Every early-stop rule that [Task.eval] reaches (at index [i] of
    the current list) is compared with the stop signal: when the kind
    differs from the rule's expected kind, or the rule's kind is ANS and
    the arguments are not exactly the rule's expected argument list, the
    call returns [False] at once and leaves the list as it is; otherwise
    the rule is deleted and the loop goes on at the same index of the
    shortened list.  When every rule is such a rule and agrees with the
    signal, the verdict is [True] and the list is empty.  Scenario A:
    rule (ANS, ["42"]) and signal (ANS, ["42"]) give [True]; scenario B:
    the same rule and signal (ANS, ["7"]) give [False]. *)
Theorem eval_checks_early_stop_rules (stop_type : string) (stop_args : list string) :
  (forall (fuel i : nat) (evaluate : list eval_item) (item : eval_item),
      evaluate !! i = Some item ->
      is_early_stop item = true ->
      check_config_item item = true ->
      ((item !! "value" <> Some (VStr stop_type)
        \/ (item !! "value" = Some (VStr ANS)
            /\ item !! "args" <> Some (VList stop_args))) ->
       eval_loop (S fuel) stop_type stop_args i evaluate
       = Some (Return false, evaluate))
      /\
      (item !! "value" = Some (VStr stop_type) ->
       (item !! "value" = Some (VStr ANS) ->
        item !! "args" = Some (VList stop_args)) ->
       eval_loop (S fuel) stop_type stop_args i evaluate
       = eval_loop fuel stop_type stop_args i (delete i evaluate)))
  /\ (forall evaluate : list eval_item,
      Forall (fun item =>
                is_early_stop item = true
                /\ check_config_item item = true
                /\ item !! "value" = Some (VStr stop_type)
                /\ (stop_type = ANS ->
                    item !! "args" = Some (VList stop_args))) evaluate ->
      eval stop_type stop_args evaluate = Some (Return true, []))
  /\ eval "ANS" ["42"] [ans_rule ["42"]] = Some (Return true, [])
  /\ eval "ANS" ["7"] [ans_rule ["42"]]
     = Some (Return false, [ans_rule ["42"]]).
Proof.
  split; [|split; [|split]].
  - intros fuel i evaluate item Hi Hes Hck.
    cbn [eval_loop]. rewrite Hi.
    rewrite (branch_checked _ _ _ Hck), Hes.
    unfold matches. split.
    + intros [Hv | [Hv Ha]].
      * rewrite (bool_decide_eq_false_2 _ Hv). reflexivity.
      * case_bool_decide as Hv'; [|reflexivity].
        assert (stop_type = ANS) as -> by congruence.
        rewrite (bool_decide_eq_true_2 (ANS = ANS)) by reflexivity.
        rewrite (bool_decide_eq_false_2 _ Ha). reflexivity.
    + intros Hv Ha.
      rewrite (bool_decide_eq_true_2 _ Hv). cbn [andb].
      case_bool_decide as Hans; cbn [negb orb]; [|reflexivity].
      subst stop_type. rewrite (bool_decide_eq_true_2 _ (Ha Hv)).
      reflexivity.
  - intros evaluate Hall. rewrite eval_scan.
    assert (forall kept, scan stop_type stop_args kept evaluate
                         = scan stop_type stop_args kept []) as ->.
    { induction Hall as [|item rest (Hes & Hck & Hv & Ha) _ IH];
        intros kept; [reflexivity|].
      cbn [scan]. rewrite (branch_checked _ _ _ Hck), Hes.
      unfold matches. rewrite (bool_decide_eq_true_2 _ Hv). cbn [andb].
      case_bool_decide as Hans; cbn [negb orb].
      - rewrite (bool_decide_eq_true_2 _ (Ha Hans)). apply IH.
      - apply IH. }
    reflexivity.
  - vm_compute. reflexivity.
  - vm_compute. reflexivity.
Qed.

(** An early-stop rule that agrees with (ANS, ["42"]) is deleted, and one
    that expects DONE makes the call return [False]. *)
Lemma eval_checks_early_stop_rules_witness :
  eval_loop 2 "ANS" ["42"] 0 [ans_rule ["42"]]
  = eval_loop 1 "ANS" ["42"] 0 []
  /\ eval_loop 2 "ANS" ["42"] 0 [stop_rule "DONE"]
     = Some (Return false, [stop_rule "DONE"]).
Proof.
  destruct (eval_checks_early_stop_rules "ANS" ["42"]) as (Hstep & _).
  split.
  - apply (Hstep 1%nat 0%nat [ans_rule ["42"]] (ans_rule ["42"]));
      vm_compute; try reflexivity; intros _; reflexivity.
  - apply (Hstep 1%nat 0%nat [stop_rule "DONE"] (stop_rule "DONE"));
      try (vm_compute; reflexivity).
    left. vm_compute. discriminate.
Defined.

(** C1 (as amended).  A rule that is not of the early-stop kind does not
    end the scan: it stays in the list and the scan moves on to the next
    rule, so the early-stop rules after it are compared with the stop
    signal as well.  For a checked rule list [pre ++ d :: post] with a
    domain-specific rule [d], the call raises [PlannedNotImplemented]
    exactly when all early-stop rules of [pre] and of [post] agree with
    the signal, and returns [False] otherwise; on deferral the list that
    is left holds the domain-specific rules only. *)
Theorem eval_scans_past_domain_rules
    (stop_type : string) (stop_args : list string)
    (pre post : list eval_item) (d : eval_item) :
  Forall (fun item => check_config_item item = true) (pre ++ d :: post) ->
  is_domain d = true ->
  fst <$> eval stop_type stop_args (pre ++ d :: post)
  = Some (if forallb (matches stop_type stop_args) (List.filter is_early_stop pre)
             && forallb (matches stop_type stop_args) (List.filter is_early_stop post)
          then Raise PlannedNotImplemented
          else Return false)
  /\ (forallb (matches stop_type stop_args) (List.filter is_early_stop pre)
      && forallb (matches stop_type stop_args) (List.filter is_early_stop post)
      = true ->
      snd <$> eval stop_type stop_args (pre ++ d :: post)
      = Some (List.filter is_domain pre ++ d :: List.filter is_domain post)).
Proof.
  intros Hwf Hd. rewrite eval_scan. cbn [fmap option_fmap option_map].
  destruct (scan_verdict stop_type stop_args (pre ++ d :: post) [] Hwf)
    as [Hfst Hsnd].
  assert (Hdes : is_early_stop d = false).
  { apply Forall_app in Hwf as [_ Hwf]. inversion Hwf as [|? ? Hck _]; subst.
    rewrite (is_domain_checked _ Hck) in Hd.
    destruct (is_early_stop d); [discriminate | reflexivity]. }
  rewrite !List.filter_app in Hfst, Hsnd. cbn [List.filter] in Hfst, Hsnd.
  rewrite Hd, Hdes in Hfst, Hsnd.
  rewrite forallb_app in Hfst, Hsnd. cbn [app] in Hfst, Hsnd.
  split.
  - assert (Hlt : (0 <? length (List.filter is_domain pre
                                  ++ d :: List.filter is_domain post))%nat
                  = true)
      by (apply Nat.ltb_lt; rewrite length_app; cbn [length]; lia).
    rewrite Hlt in Hfst. rewrite Hfst. reflexivity.
  - intros Hall. rewrite (Hsnd Hall). reflexivity.
Qed.

Lemma eval_scans_past_domain_rules_witness :
  fst <$> eval "TIMEOUT" [] [domain_rule "info" "k"; ans_rule ["42"]]
  = Some (Return false).
Proof.
  apply (eval_scans_past_domain_rules "TIMEOUT" []
           [] [ans_rule ["42"]] (domain_rule "info" "k")).
  - repeat constructor.
  - vm_compute. reflexivity.
Defined.

(** C1 (as stated) fails: the rule list is a domain-specific rule
    followed by an early-stop rule that expects (ANS, ["42"]).  With the
    signal (TIMEOUT, []) the call returns [False], so the late rule has
    been compared with the signal; with the signal (ANS, ["42"]) the late
    rule is deleted before the call defers.  Hence the scan does not
    defer at the domain-specific rule with the rest of the list
    untouched. *)
Lemma eval_defers_at_domain_rule_counterexample :
  eval "TIMEOUT" [] [domain_rule "info" "k"; ans_rule ["42"]]
  = Some (Return false, [domain_rule "info" "k"; ans_rule ["42"]])
  /\ eval "ANS" ["42"] [domain_rule "info" "k"; ans_rule ["42"]]
     = Some (Raise PlannedNotImplemented, [domain_rule "info" "k"])
  /\ ~ (forall stop_type stop_args (pre post : list eval_item) (d : eval_item),
          Forall (fun item => check_config_item item = true) (pre ++ d :: post) ->
          Forall (fun item => is_early_stop item = true
                              /\ matches stop_type stop_args item = true) pre ->
          is_domain d = true ->
          eval stop_type stop_args (pre ++ d :: post)
          = Some (Raise PlannedNotImplemented, d :: post)).
Proof.
  split; [vm_compute; reflexivity|].
  split; [vm_compute; reflexivity|].
  intros H.
  specialize (H "TIMEOUT" [] [] [ans_rule ["42"]] (domain_rule "info" "k")).
  cbn [app] in H.
  assert (Hev : eval "TIMEOUT" [] [domain_rule "info" "k"; ans_rule ["42"]]
                = Some (Return false,
                        [domain_rule "info" "k"; ans_rule ["42"]]))
    by (vm_compute; reflexivity).
  rewrite Hev in H.
  assert (Some (Return false, [domain_rule "info" "k"; ans_rule ["42"]])
          = Some (Raise PlannedNotImplemented,
                  [domain_rule "info" "k"; ans_rule ["42"]])) as Habs.
  { apply H.
    - repeat constructor.
    - constructor.
    - vm_compute. reflexivity. }
  discriminate Habs.
Qed.

End EvalFacts.

(** ** Task.predict *)
Module PredictFacts.
Import Step Predict.

Local Open Scope Z_scope.

Section Loop.
Variables (penalty : Z * Z) (community : Z * Z -> list response_code)
          (single_step : bool).

Lemma body_step_index (st : state) (invalid : bool) :
  step_index (body penalty st invalid) = step_index st + 1.
Proof. unfold body. destruct (_ >=? _); reflexivity. Qed.

Lemma body_steps_le (st : state) (invalid : bool) :
  0 <= snd penalty -> steps (body penalty st invalid) <= steps st.
Proof. unfold body. destruct (_ >=? _); cbn; lia. Qed.

(** The tally is never below the number of liquid steps in a row. *)
Lemma in_a_row_le_liquid (invalids : list bool) (st : state) (row : Z) :
  0 <= row <= liquid st ->
  0 <= passes_in_a_row penalty invalids st row
    <= liquid (passes penalty invalids st).
Proof.
  revert st row.
  induction invalids as [|invalid rest IH]; intros st row Hrow;
    cbn [passes_in_a_row passes fold_left]; [assumption|].
  apply IH. unfold in_a_row, body.
  destruct (_ >=? _); cbn [liquid]; [lia|].
  destruct invalid; lia.
Qed.

(** With enough fuel the loop ends, and it ends with TIMEOUT when no
    pass stops or fails. *)
Lemma predict_loop_timeout (fuel : nat) (st : state) :
  0 <= snd penalty ->
  (forall i s, exists invalid,
        _step single_step (community (i, s)) = Liquid invalid) ->
  (Z.to_nat (steps st - step_index st) < fuel)%nat ->
  exists st', predict_loop penalty community single_step fuel st
              = Some (Signal TIMEOUT [], st')
              /\ steps st' <= step_index st'.
Proof.
  intros HR Hliquid. revert st.
  induction fuel as [|fuel IH]; intros st Hfuel; [lia|].
  cbn [predict_loop].
  destruct (step_index st <? steps st) eqn:Hlt.
  - apply Z.ltb_lt in Hlt.
    destruct (Hliquid (step_index st) (steps st)) as [invalid ->].
    apply IH.
    pose proof (body_step_index st invalid).
    pose proof (body_steps_le st invalid HR). lia.
  - apply Z.ltb_ge in Hlt. exists st. split; [reflexivity | assumption].
Qed.
End Loop.



End PredictFacts.

(** ** Task._step *)
Module StepFacts.
Import Step Predict.

Lemma run_codes_returns (items results : list (option bool)) :
  run_codes (map (fun item => Code (Returns item)) items) results
  = inr (results ++ items).
Proof.
  revert results.
  induction items as [|item items IH]; intros results; cbn [map run_codes].
  - rewrite app_nil_r. reflexivity.
  - rewrite IH, <- app_assoc. reflexivity.
Qed.

Lemma all_false_Forall (results : list (option bool)) :
  all_false results = true <-> Forall (fun item => item = Some false) results.
Proof.
  unfold all_false. rewrite forallb_forall, Forall_forall.
  split; intros H item Hin.
  - apply list_elem_of_In, H in Hin. apply bool_decide_eq_true_1 in Hin.
    assumption.
  - apply bool_decide_eq_true_2, H, list_elem_of_In. assumption.
Qed.

(** C10 (as amended).  A step whose action-proposing collaborator
    returned a non-empty plain list of Code Actions, none of which ends
    the episode, is liquid exactly when every executed result is the
    literal [False]; one result that is [True] or undecided makes it not
    liquid.  On the empty list [_step] raises [IndexError] at
    [response_codes[0]]. *)
Theorem step_liquid_iff_all_false (single_step : bool)
    (results : list (option bool)) :
  results <> [] ->
  _step single_step (map (fun item => Code (Returns item)) results)
  = Liquid (all_false results)
  /\ (all_false results = true
      <-> Forall (fun item => item = Some false) results)
  /\ (In None results \/ In (Some true) results -> all_false results = false)
  /\ _step single_step [] = Failed IndexError.
Proof.
  intros Hne. split; [|split; [|split]].
  - destruct results as [|item results]; [contradiction|].
    cbn [map _step].
    change (Code (Returns item) :: map _ results)
      with (map (fun item => Code (Returns item)) (item :: results)).
    rewrite run_codes_returns. reflexivity.
  - apply all_false_Forall.
  - intros Hin. destruct (all_false results) eqn:Hall; [|reflexivity].
    apply all_false_Forall in Hall. rewrite Forall_forall in Hall.
    destruct Hin as [Hin | Hin];
      apply list_elem_of_In, Hall in Hin; discriminate.
  - reflexivity.
Qed.

Lemma step_liquid_iff_all_false_witness :
  _step false [Code (Returns (Some false)); Code (Returns None)]
  = Liquid false.
Proof.
  apply (step_liquid_iff_all_false false [Some false; None]).
  discriminate.
Defined.

(** C10 (as stated) fails on the empty list: every element of the empty
    result list is [False], yet [_step] does not return [True]; it
    raises [IndexError], which [predict] does not catch, so no liquid
    step is counted. *)
Lemma step_empty_list_counterexample :
  all_false [] = true
  /\ _step false [] = Failed IndexError
  /\ _step false [] <> Liquid true
  /\ predict (3, 2)%Z (fun _ => []) false 10
     = Some (Error IndexError,
             {| liquid := 0; step_index := 0; steps := 10 |}).
Proof.
  split; [reflexivity|]. split; [reflexivity|].
  split; [discriminate | reflexivity].
Qed.

(** In the debug path only the last batch decides. *)
Remark step_batches_last_batch_decides :
  _step true [Batch [Returns (Some true)]; Batch [Returns (Some false)]]
  = Liquid true.
Proof. reflexivity. Qed.

End StepFacts.

(** ** Sharding *)
Module ShardFacts.
Import Shard.

Local Open Scope Z_scope.

Lemma bounds_inr (N S I : Z) :
  1 <= S ->
  bounds N S I
  = inr (if I <? N mod S
         then (I * (N / S + 1), Z.min (I * (N / S + 1) + N / S + 1) N)
         else (N mod S * (N / S + 1) + (I - N mod S) * (N / S),
               Z.min (N mod S * (N / S + 1) + (I - N mod S) * (N / S)
                      + N / S) N)).
Proof.
  intros HS. unfold bounds.
  destruct (S =? 0) eqn:HS0; [apply Z.eqb_eq in HS0; lia|].
  destruct (I <? N mod S); reflexivity.
Qed.

(** Where shard [I] starts and ends. *)
Lemma bounds_range (N S I : Z) :
  0 <= N -> 1 <= S -> 0 <= I < S ->
  exists start end_,
    bounds N S I = inr (start, end_)
    /\ start = I * (N / S) + Z.min I (N mod S)
    /\ end_ = (I + 1) * (N / S) + Z.min (I + 1) (N mod S).
Proof.
  intros HN HS HI.
  pose proof (Z.div_mod N S ltac:(lia)) as Hdm.
  pose proof (Z.mod_pos_bound N S ltac:(lia)) as Hmod.
  assert (0 <= N / S) as Hq by (apply Z.div_pos; lia).
  rewrite bounds_inr by assumption.
  destruct (I <? N mod S) eqn:Hlt.
  - apply Z.ltb_lt in Hlt. do 2 eexists. split; [reflexivity|].
    split; [lia|]. nia.
  - apply Z.ltb_ge in Hlt. do 2 eexists. split; [reflexivity|].
    split; [lia|]. nia.
Qed.

Lemma slice_in_range {A : Type} (l : list A) (start stop : Z) :
  0 <= start <= stop -> stop <= Z.of_nat (length l) ->
  slice l start stop
  = firstn (Z.to_nat (stop - start)) (skipn (Z.to_nat start) l).
Proof.
  intros Hs Hn. unfold slice.
  destruct (stop <? 0) eqn:H1; [apply Z.ltb_lt in H1; lia|].
  destruct (start <? 0) eqn:H2; [apply Z.ltb_lt in H2; lia|].
  rewrite !Z.min_l by lia. reflexivity.
Qed.

(** The slices of the first [k] shards, put one after the other, are the
    first [k * (N / S) + min k (N mod S)] items. *)
Lemma joined_shards {A : Type} (all_pth : list A) (S : Z) (k : nat) :
  1 <= S -> Z.of_nat k <= S ->
  let N := Z.of_nat (length all_pth) in
  joined (shards all_pth S k)
  = firstn (Z.to_nat (Z.of_nat k * (N / S) + Z.min (Z.of_nat k) (N mod S)))
           all_pth.
Proof.
  intros HS Hk N.
  pose proof (Z.div_mod N S ltac:(lia)) as Hdm.
  pose proof (Z.mod_pos_bound N S ltac:(lia)) as Hmod.
  assert (0 <= N / S) as Hq by (apply Z.div_pos; lia).
  induction k as [|k IH].
  - cbn. rewrite Z.min_l by lia. reflexivity.
  - unfold shards, joined in *. rewrite seq_S, map_app, flat_map_app.
    rewrite IH by lia. cbn [map flat_map Nat.add]. rewrite app_nil_r.
    destruct (bounds_range N S (Z.of_nat k)) as (start & end_ & Hb & Hst & Hen);
      [lia | lia | lia |].
    unfold selected_pth. fold N. rewrite Hb.
    assert (end_ <= N) by (subst end_; nia).
    assert (0 <= start <= end_) by (subst start end_; nia).
    rewrite slice_in_range by (fold N; lia).
    rewrite <- Hst. rewrite take_take_drop. f_equal.
    replace (Z.of_nat (Datatypes.S k)) with (Z.of_nat k + 1) by lia.
    rewrite <- Hen. lia.
Qed.



End ShardFacts.

(** ** TaskGroup.__init__ *)
Module GroupFacts.
Import Group.

(** [TypeSort.__eq__] in terms of the fields. *)
Lemma eq_fields (x y : TypeSort) :
  __eq__ x y = true
  <-> sort x = sort y /\ (sort x = Raw -> type x = type y).
Proof.
  unfold __eq__, __repr__. rewrite bool_decide_eq_true.
  destruct x as [tx [|]], y as [ty [|]]; cbn [sort type name];
    repeat case_bool_decide; try congruence; cbv [String.append].
  - split.
    + intros Heq. split; [reflexivity | intros _; congruence].
    + intros [_ Heq]. rewrite (Heq eq_refl). reflexivity.
  - split; [discriminate | intros [? _]; discriminate].
  - split; [discriminate | intros [? _]; discriminate].
  - split; [intros _; split; [reflexivity | discriminate] | reflexivity].
Qed.

Lemma append_to_last_snoc (groups : list (list TaskInfo))
    (group : list TaskInfo) (task_info : TaskInfo) :
  append_to_last (groups ++ [group]) task_info
  = Some (groups ++ [group ++ [task_info]]).
Proof.
  induction groups as [|g groups IH]; [reflexivity|].
  cbn [app append_to_last]. rewrite IH.
  destruct (groups ++ [group]) eqn:Heq; [|reflexivity].
  destruct groups; discriminate.
Qed.

(** The loop of [__init__], started in the middle of a run. *)
Lemma fold_init_pass (raw : list TaskInfo) (groups : list (list TaskInfo))
    (group : list TaskInfo) (last : TaskInfo) :
  exists last_info,
    fold_left init_pass raw (inr (groups ++ [group ++ [last]], Some last))
    = inr (groups ++ [group ++ last :: fst (runs_from last raw)]
                  ++ snd (runs_from last raw),
           last_info).
Proof.
  revert groups group last.
  induction raw as [|task_info rest IH]; intros groups group last.
  - exists (Some last). reflexivity.
  - cbn [fold_left init_pass runs_from].
    destruct (runs_from task_info rest) as [run rs] eqn:Hruns.
    destruct (__eq__ (type_sort task_info) (type_sort last)).
    + rewrite append_to_last_snoc.
      destruct (IH groups (group ++ [last]) task_info) as [last_info ->].
      exists last_info. rewrite Hruns. cbn [fst snd].
      rewrite <- !app_assoc. reflexivity.
    + destruct (IH (groups ++ [group ++ [last]]) [] task_info)
        as [last_info Hfold].
      cbn [app] in Hfold. rewrite Hfold.
      exists last_info. rewrite Hruns. cbn [fst snd].
      rewrite <- !app_assoc. reflexivity.
Qed.

Lemma TaskGroup_init_runs (raw : list TaskInfo) :
  TaskGroup_init raw = inr (runs raw).
Proof.
  unfold TaskGroup_init, runs.
  destruct raw as [|task_info rest]; [reflexivity|].
  cbn [fold_left init_pass app].
  destruct (fold_init_pass rest [] [] task_info) as [last_info Hfold].
  cbn [app] in Hfold. rewrite Hfold.
  destruct (runs_from task_info rest) as [run rs]. reflexivity.
Qed.

Lemma eq_refl_key (x : TypeSort) : __eq__ x x = true.
Proof. unfold __eq__. apply bool_decide_eq_true_2. reflexivity. Qed.

Lemma eq_sym_key (x y : TypeSort) : __eq__ x y = true -> __eq__ y x = true.
Proof.
  unfold __eq__. rewrite !bool_decide_eq_true. intros H. symmetry. exact H.
Qed.

Lemma eq_trans_key (x y z : TypeSort) :
  __eq__ x y = true -> __eq__ y z = true -> __eq__ x z = true.
Proof. unfold __eq__. rewrite !bool_decide_eq_true. congruence. Qed.

Lemma same_key_cons (last task_info : TaskInfo) (run : list TaskInfo) :
  __eq__ (type_sort task_info) (type_sort last) = true ->
  same_key (task_info :: run) -> same_key (last :: task_info :: run).
Proof.
  intros Heq Hrun a b Ha Hb.
  assert (Hhead : forall c, In c (last :: task_info :: run) ->
                            __eq__ (type_sort c) (type_sort task_info) = true).
  { intros c [<- | Hc].
    - apply eq_sym_key. exact Heq.
    - apply Hrun; [exact Hc | left; reflexivity]. }
  apply (eq_trans_key _ (type_sort task_info)).
  - apply Hhead. exact Ha.
  - apply eq_sym_key, Hhead. exact Hb.
Qed.

Lemma runs_from_ok (raw : list TaskInfo) (last : TaskInfo) :
  raw = fst (runs_from last raw) ++ concat (snd (runs_from last raw))
  /\ maximal_runs ((last :: fst (runs_from last raw))
                     :: snd (runs_from last raw)).
Proof.
  revert last.
  induction raw as [|task_info rest IH]; intros last_info.
  - cbn. split; [reflexivity|].
    split; [discriminate|]. split; [|split; exact I].
    intros a b [<- | []] [<- | []]. apply eq_refl_key.
  - cbn [runs_from]. destruct (IH task_info) as [Hcat Hmax].
    destruct (runs_from task_info rest) as [run rs]. cbn [fst snd] in *.
    destruct Hmax as (_ & Hsame & Hchange & Hrest).
    destruct (__eq__ (type_sort task_info) (type_sort last_info)) eqn:Heq;
      cbn [fst snd concat].
    + split; [cbn [app]; f_equal; exact Hcat|].
      split; [discriminate|].
      split; [apply same_key_cons; assumption|].
      split; [|exact Hrest].
      destruct rs as [|next rs']; [exact I|].
      intros a b Ha Hb. rewrite last_cons_cons in Ha.
      apply Hchange; assumption.
    + split; [cbn [app]; f_equal; exact Hcat|].
      split; [discriminate|].
      split; [intros a b [<- | []] [<- | []]; apply eq_refl_key|].
      split.
      * intros a b Ha Hb. cbn in Ha, Hb.
        injection Ha as <-. injection Hb as <-. exact Heq.
      * split; [discriminate|]. split; [exact Hsame|].
        split; assumption.
Qed.

Lemma maximal_runs_expand (groups : list (list TaskInfo)) :
  maximal_runs groups ->
  Forall (fun group => group <> [] /\ same_key group) groups
  /\ (forall before group next after,
        groups = before ++ group :: next :: after ->
        key_changes group next).
Proof.
  induction groups as [|g rest IH]; intros Hmax.
  - split; [constructor|]. intros [|? ?] ? ? ? H; discriminate H.
  - destruct Hmax as (Hne & Hsame & Hchange & Hrest).
    destruct (IH Hrest) as [Hall Hbound].
    split; [constructor; [split|]; assumption|].
    intros [|g0 before] group next after H; cbn [app] in H.
    + injection H as -> ->. exact Hchange.
    + injection H as -> ->. apply (Hbound before group next after).
      reflexivity.
Qed.

(** C5 (as amended).  [TaskGroup.__init__] splits every list of task
    descriptors into groups whose concatenation is the input list, so
    every descriptor is in exactly one group and the order is kept.  No
    group is empty; the members of a group have keys that
    [TypeSort.__eq__] takes for equal, and where a group ends and the
    next one starts [TypeSort.__eq__] takes the two keys for different:
    the groups are the maximal runs for [TypeSort.__eq__].  That test
    compares the [__repr__] strings: two keys are equal when their sorts
    are equal and, for the sort Raw, their types are equal; keys of the
    sort VM are equal whatever their types. *)
Theorem TaskGroup_init_maximal_runs (raw : list TaskInfo) :
  exists groups,
    TaskGroup_init raw = inr groups
    /\ concat groups = raw
    /\ Forall (fun group => group <> [] /\ same_key group) groups
    /\ (forall before group next after,
          groups = before ++ group :: next :: after ->
          key_changes group next)
    /\ (forall x y : TypeSort,
          __eq__ x y = true
          <-> sort x = sort y /\ (sort x = Raw -> type x = type y)).
Proof.
  exists (runs raw). split; [apply TaskGroup_init_runs|].
  assert (concat (runs raw) = raw /\ maximal_runs (runs raw)) as [Hcat Hmax].
  { unfold runs. destruct raw as [|task_info rest]; [split; [reflexivity | exact I]|].
    destruct (runs_from_ok rest task_info) as [Hcat Hmax].
    destruct (runs_from task_info rest) as [run rs]. cbn [fst snd] in *.
    split; [|exact Hmax].
    cbn [concat app]. f_equal. symmetry. exact Hcat. }
  split; [exact Hcat|].
  destruct (maximal_runs_expand _ Hmax) as [Hall Hbound].
  split; [exact Hall|]. split; [exact Hbound|].
  apply eq_fields.
Qed.

Lemma TaskGroup_init_maximal_runs_witness :
  let m := {| manager_id := 0; vmanager := false |} in
  let a := {| ident := "a"; manager := m;
              type_sort := {| type := "chimerax"; sort := Raw |} |} in
  let b := {| ident := "b"; manager := m;
              type_sort := {| type := "kalgebra"; sort := Raw |} |} in
  exists groups,
    TaskGroup_init [a; a; b] = inr groups
    /\ concat groups = [a; a; b]
    /\ key_changes [a; a] [b].
Proof.
  cbv zeta.
  match goal with |- context [TaskGroup_init ?raw] =>
    destruct (TaskGroup_init_maximal_runs raw)
      as (groups & Hinit & Hcat & _ & Hchange & _)
  end.
  exists groups. split; [exact Hinit|]. split; [exact Hcat|].
  apply (Hchange [] _ _ []).
  vm_compute in Hinit. injection Hinit as <-. reflexivity.
Defined.

(** C5 (as stated) fails: two descriptors of the sort VM with different
    types have different (sort, type) keys, and [TaskGroup.__init__]
    still puts them in one group. *)
Lemma TaskGroup_init_sort_type_counterexample :
  let m := {| manager_id := 0; vmanager := true |} in
  let a := {| ident := "a"; manager := m;
              type_sort := {| type := "chimerax"; sort := VM |} |} in
  let b := {| ident := "b"; manager := m;
              type_sort := {| type := "kalgebra"; sort := VM |} |} in
  (sort (type_sort a), type (type_sort a))
    <> (sort (type_sort b), type (type_sort b))
  /\ TaskGroup_init [a; b] = inr [[a; b]].
Proof.
  cbv zeta. split; [discriminate | reflexivity].
Qed.

End GroupFacts.

(** ** TaskGroup.__call__ and Tester.__call__ *)
Module DriverFacts.
Import Group Driver.

Local Open Scope Z_scope.

Section Run.
Variable W : Type.
Variable snoop : W -> TaskInfo -> bool.
Variable log_enter : TaskInfo -> W -> bool * W.
Variable log_exit : TaskInfo -> W -> W.
Variable task_call : TaskInfo -> W -> call_result * W.
Variables manager_enter manager_exit : Manager -> W -> W.
Variable ignore : bool.

Local Abbreviation loop_body := (loop_body W log_enter log_exit task_call).
Local Abbreviation run_members := (run_members W log_enter log_exit task_call).
Local Abbreviation enter := (enter W manager_enter).
Local Abbreviation leave := (leave W manager_exit).
Local Abbreviation emit := (emit W).
Local Abbreviation drive :=
  (drive W snoop log_enter log_exit task_call manager_enter manager_exit ignore).
Local Abbreviation next_group := (next_group W snoop manager_enter ignore).
Local Abbreviation iteration_contract :=
  (iteration_contract W snoop log_enter log_exit task_call
                      manager_enter manager_exit ignore).
Local Abbreviation Tester_call :=
  (Tester_call W snoop log_enter log_exit task_call
               manager_enter manager_exit ignore).

Lemma check_nonempty (groups : list (list TaskInfo)) :
  TaskGroup_check groups = true -> Forall (fun group => group <> []) groups.
Proof.
  unfold TaskGroup_check. rewrite forallb_forall, Forall_forall.
  intros H group Hin. apply list_elem_of_In, H in Hin.
  unfold check_group in Hin. destruct group; [discriminate Hin | discriminate].
Qed.

(** The members left in a group are handed out and run one by one. *)
Lemma drive_members (groups : list (list TaskInfo)) (members : list TaskInfo)
    (entered : option Manager) (rest : list (list TaskInfo))
    (s : run_state W) (fuel : nat) :
  drive (length members + fuel) groups (Suspended entered members rest) s
  = drive fuel groups (Suspended entered [] rest) (run_members members s).
Proof.
  revert s. induction members as [|t members IH]; intros s; [reflexivity|].
  cbn [length Nat.add Driver.drive next]. rewrite IH. reflexivity.
Qed.

(** From the end of a group on, the loop follows the contract. *)
Lemma drive_rest (groups rest : list (list TaskInfo)) :
  Forall (fun group => group <> []) rest ->
  forall (entered : option Manager) (s : run_state W) (fuel : nat),
    (length (concat rest) <= fuel)%nat ->
    drive (S fuel) groups (Suspended entered [] rest) s
    = Some (inr (iteration_contract rest
                   match entered with Some m => leave m s | None => s end)).
Proof.
  induction 1 as [|group rest Hne _ IH]; intros entered s fuel Hfuel.
  - reflexivity.
  - destruct group as [|first members]; [contradiction|].
    cbn [concat length] in Hfuel. rewrite length_app in Hfuel.
    cbn [length] in Hfuel.
    set (s0 := match entered with Some m => leave m s | None => s end).
    cbn [Driver.drive next Driver.next_group Driver.iteration_contract head].
    fold s0.
    destruct (existsb (snoop (world s0)) (first :: members) || negb ignore).
    + replace fuel
        with (length members + S (fuel - S (length members)))%nat by lia.
      rewrite drive_members, IH by lia. reflexivity.
    + replace fuel
        with (length members + S (fuel - S (length members)))%nat by lia.
      rewrite drive_members, IH by lia. reflexivity.
Qed.

Lemma drive_contract (groups : list (list TaskInfo)) (s : run_state W) :
  TaskGroup_check groups = true ->
  drive (S (length (concat groups))) groups Created s
  = Some (inr (iteration_contract groups s)).
Proof.
  intros Hcheck.
  pose proof (drive_rest groups groups (check_nonempty _ Hcheck) None s
                (length (concat groups)) (le_n _)) as Hrest.
  cbn [Driver.drive next] in Hrest. cbn [Driver.drive next].
  rewrite Hcheck. exact Hrest.
Qed.

Lemma yields_app (l1 l2 : list event) :
  yields (l1 ++ l2) = yields l1 ++ yields l2.
Proof. apply flat_map_app. Qed.

Lemma enters_app (l1 l2 : list event) :
  enters (l1 ++ l2) = enters l1 ++ enters l2.
Proof. apply flat_map_app. Qed.

Lemma exits_app (l1 l2 : list event) :
  exits (l1 ++ l2) = exits l1 ++ exits l2.
Proof. apply flat_map_app. Qed.

(** Handing out and running the members of a group opens and closes no
    session, and hands out the members in order. *)
Lemma run_members_trace (group : list TaskInfo) (s : run_state W) :
  exists mid,
    trace (run_members group s) = trace s ++ mid
    /\ yields mid = group /\ enters mid = [] /\ exits mid = [].
Proof.
  revert s. induction group as [|t group IH]; intros s.
  - exists []. cbn. rewrite app_nil_r. repeat split; reflexivity.
  - cbn [Driver.run_members fold_left].
    destruct (IH (loop_body t (emit (Yield t) s))) as (mid & Htr & Hy & He & Hx).
    unfold Driver.run_members in Htr. rewrite Htr.
    assert (exists e, trace (loop_body t (emit (Yield t) s))
                      = (trace s ++ [Yield t]) ++ [e]
                      /\ yields [e] = [] /\ enters [e] = [] /\ exits [e] = [])
      as (e & -> & Hye & Hee & Hxe).
    { unfold Driver.loop_body.
      destruct (log_enter t (world (emit (Yield t) s))) as [[|] w].
      - eexists. split; [reflexivity|]. repeat split; reflexivity.
      - destruct (task_call t w) as [r w'].
        eexists. split; [reflexivity|]. repeat split; reflexivity. }
    exists ([Yield t] ++ [e] ++ mid).
    split; [rewrite <- !app_assoc; reflexivity|].
    rewrite !yields_app, !enters_app, !exits_app.
    rewrite Hye, Hee, Hxe, Hy, He, Hx. repeat split; reflexivity.
Qed.

Lemma loop_body_counter (t : TaskInfo) (s : run_state W) :
  total (counter (loop_body t s)) = total (counter s) + 1
  /\ le_counter (counter s) (counter (loop_body t s)).
Proof.
  unfold Driver.loop_body.
  destruct (log_enter t (world s)) as [[|] w]; cbn [counter].
  - unfold total, le_counter, _ignore; cbn. lia.
  - destruct (task_call t w) as [[[|]|] w']; cbn [counter];
      unfold total, le_counter, _pass, _fail, _skip; cbn; lia.
Qed.

Lemma fold_loop_body_counter (tasks : list TaskInfo) (s : run_state W) :
  total (counter (fold_left (fun s t => loop_body t s) tasks s))
  = total (counter s) + Z.of_nat (length tasks)
  /\ le_counter (counter s)
                (counter (fold_left (fun s t => loop_body t s) tasks s)).
Proof.
  revert s. induction tasks as [|t tasks IH]; intros s; cbn [fold_left length].
  - unfold le_counter. lia.
  - destruct (IH (loop_body t s)) as [Htot Hle].
    destruct (loop_body_counter t s) as [Htot1 Hle1].
    unfold le_counter in *. lia.
Qed.

Lemma run_members_counter (group : list TaskInfo) (s : run_state W) :
  total (counter (run_members group s))
  = total (counter s) + Z.of_nat (length group)
  /\ le_counter (counter s) (counter (run_members group s)).
Proof.
  revert s. induction group as [|t group IH]; intros s;
    cbn [Driver.run_members fold_left length].
  - unfold le_counter. lia.
  - destruct (IH (loop_body t (emit (Yield t) s))) as [Htot Hle].
    unfold Driver.run_members in Htot, Hle.
    destruct (loop_body_counter t (emit (Yield t) s)) as [Htot1 Hle1].
    cbn [Driver.emit counter] in Htot1, Hle1.
    unfold le_counter in *. lia.
Qed.

Lemma iteration_contract_counter (groups : list (list TaskInfo)) :
  Forall (fun group => group <> []) groups ->
  forall s : run_state W,
    total (counter (iteration_contract groups s))
    = total (counter s) + Z.of_nat (length (concat groups))
    /\ le_counter (counter s) (counter (iteration_contract groups s)).
Proof.
  induction 1 as [|group rest Hne _ IH]; intros s;
    cbn [Driver.iteration_contract concat length].
  - unfold le_counter. lia.
  - destruct group as [|first members]; [contradiction|].
    rewrite length_app. cbn [head].
    destruct (existsb (snoop (world s)) (first :: members) || negb ignore).
    + destruct (IH (leave (manager first)
                      (run_members (first :: members)
                                   (enter (manager first) s)))) as [Htot Hle].
      destruct (run_members_counter (first :: members)
                  (enter (manager first) s)) as [Htot1 Hle1].
      cbn [Driver.leave Driver.enter counter] in *.
      unfold le_counter in *. lia.
    + destruct (IH (run_members (first :: members) s)) as [Htot Hle].
      destruct (run_members_counter (first :: members) s) as [Htot1 Hle1].
      unfold le_counter in *. lia.
Qed.



End Run.



End DriverFacts.

(** ** Task.init *)
Module InitFacts.
Import Init.

Section Task.
Variable W : Type.
Variable local_handlers global_handlers :
  string -> option (gmap string value -> W -> handler_result * W).
Variable sort_lower : string.
Variable _init : W -> bool * W.
Variable initialize : list init_item.

Local Abbreviation call_func :=
  (call_func W local_handlers global_handlers sort_lower).
Local Abbreviation init_items :=
  (init_items W local_handlers global_handlers sort_lower).
Local Abbreviation init_attempts :=
  (init_attempts W local_handlers global_handlers sort_lower _init initialize).
Local Abbreviation init :=
  (init W local_handlers global_handlers sort_lower _init initialize).
Local Abbreviation attempt :=
  (attempt W local_handlers global_handlers sort_lower _init initialize).
Local Abbreviation after :=
  (after W local_handlers global_handlers sort_lower _init initialize).

Lemma init_attempts_S (n : nat) (w : W) :
  init_attempts (S n) w
  = if fst (attempt w) then attempt w
    else init_attempts n (snd (attempt w)).
Proof.
  cbn [Init.init_attempts]. unfold Init.attempt.
  destruct (_init w) as [[|] w1]; cbn [negb fst snd]; [|reflexivity].
  destruct (Init.init_items _ _ _ _ initialize w1) as [[|] w2];
    reflexivity.
Qed.

Lemma init_attempts_spec (n : nat) (w : W) :
  if fst (init_attempts n w)
  then exists k, (k < n)%nat
                 /\ (forall j, (j < k)%nat -> fst (attempt (after j w)) = false)
                 /\ attempt (after k w) = init_attempts n w
  else (forall j, (j < n)%nat -> fst (attempt (after j w)) = false)
       /\ snd (init_attempts n w) = after n w.
Proof.
  revert w. induction n as [|n IH]; intros w.
  - cbn. split; [intros j Hj; lia | reflexivity].
  - rewrite init_attempts_S.
    destruct (fst (attempt w)) eqn:Hfirst.
    + rewrite Hfirst. exists 0%nat. split; [lia|].
      split; [intros j Hj; lia | reflexivity].
    + specialize (IH (snd (attempt w))).
      destruct (fst (init_attempts n (snd (attempt w)))).
      * destruct IH as (k & Hk & Hfail & Hok).
        exists (S k). split; [lia|]. split; [|exact Hok].
        intros [|j] Hj; [exact Hfirst | apply Hfail; lia].
      * destruct IH as [Hfail Hw]. split; [|exact Hw].
        intros [|j] Hj; [exact Hfirst | apply Hfail; lia].
Qed.

Lemma init_items_app (pre post : list init_item) (w : W) :
  init_items (pre ++ post) w
  = if fst (init_items pre w) then init_items post (snd (init_items pre w))
    else init_items pre w.
Proof.
  revert w. induction pre as [|item pre IH]; intros w; [reflexivity|].
  cbn [app Init.init_items].
  destruct (call_func item w) as [[[|]|] w']; [apply IH | reflexivity..].
Qed.


End Task.


End InitFacts.

(** ** More on Task.eval, Task._stop_handler and Task._config_handler *)
Module HandlersFacts.
Import Eval Handlers.

Section Signal.
Variables (stop_type : string) (stop_args : list string).

(** Rules that the scan passes over can as well be in front of the
    list. *)
Lemma scan_kept (kept rest : list eval_item) :
  Forall (fun item => branch stop_type stop_args item = Skip) kept ->
  scan stop_type stop_args [] (kept ++ rest)
  = scan stop_type stop_args kept rest.
Proof.
  intros Hkept.
  assert (forall done, scan stop_type stop_args done (kept ++ rest)
                       = scan stop_type stop_args (done ++ kept) rest) as H.
  { induction Hkept as [|item kept Hitem _ IH]; intros done.
    - rewrite app_nil_r. reflexivity.
    - cbn [app scan]. rewrite Hitem, IH, <- app_assoc. reflexivity. }
  apply (H []).
Qed.

(** What the scan leaves, and when it leaves passed-over rules only. *)
Lemma scan_residual (rest kept : list eval_item) :
  Forall (fun item => branch stop_type stop_args item = Skip) kept ->
  scan stop_type stop_args []
       (snd (scan stop_type stop_args kept rest))
  = scan stop_type stop_args kept rest
  /\ (fst (scan stop_type stop_args kept rest) = Return true
      \/ fst (scan stop_type stop_args kept rest) = Raise PlannedNotImplemented ->
      Forall (fun item => branch stop_type stop_args item = Skip)
             (snd (scan stop_type stop_args kept rest))).
Proof.
  revert kept. induction rest as [|item rest IH]; intros kept Hkept.
  - cbn [scan]. destruct (0 <? length kept)%nat eqn:Hlen; cbn [fst snd];
      (split; [|intros _; exact Hkept]);
      rewrite <- (app_nil_r kept) at 1; rewrite scan_kept by exact Hkept;
      cbn [scan]; rewrite Hlen; reflexivity.
  - cbn [scan]. destruct (branch stop_type stop_args item) eqn:Hb;
      cbn [fst snd].
    + apply IH. apply Forall_app. split; [exact Hkept|].
      constructor; [exact Hb | constructor].
    + split; [|intros [H|H]; discriminate H].
      rewrite scan_kept by exact Hkept. cbn [scan]. rewrite Hb. reflexivity.
    + apply IH. exact Hkept.
    + split.
      * rewrite scan_kept by exact Hkept. cbn [scan]. rewrite Hb. reflexivity.
      * intros [H|H]; [discriminate H|].
        injection H as ->. unfold branch in Hb.
        repeat case_match; discriminate Hb.
Qed.
End Signal.

Lemma branch_skip_any (stop_type stop_type' : string)
    (stop_args stop_args' : list string) (item : eval_item) :
  branch stop_type stop_args item = Skip ->
  branch stop_type' stop_args' item = Skip.
Proof.
  unfold branch. intros H. repeat case_match; try discriminate H; reflexivity.
Qed.

(** A second call of [Task.eval] on the list that a first call left gives
    the same result and leaves the list as it is; when the first call
    returned [True] or deferred, this holds for every stop signal, because
    no early-stop rule is left to compare it with. *)
Theorem eval_again (stop_type : string) (stop_args : list string)
    (evaluate evaluate' : list eval_item) (r : result) :
  eval stop_type stop_args evaluate = Some (r, evaluate') ->
  eval stop_type stop_args evaluate' = Some (r, evaluate')
  /\ (r = Return true \/ r = Raise PlannedNotImplemented ->
      forall stop_type' stop_args',
        eval stop_type' stop_args' evaluate' = Some (r, evaluate')).
Proof.
  rewrite !EvalFacts.eval_scan. intros H. injection H as H.
  destruct (scan_residual stop_type stop_args evaluate [] ltac:(constructor))
    as [Hagain Hskip].
  rewrite H in Hagain, Hskip. cbn [fst snd] in Hagain, Hskip.
  split; [rewrite Hagain; reflexivity|].
  intros Hr stop_type' stop_args'. rewrite EvalFacts.eval_scan. f_equal.
  specialize (Hskip Hr).
  assert (forall st sa,
             Forall (fun item => branch st sa item = Skip) evaluate' ->
             scan st sa [] evaluate'
             = (if (0 <? length evaluate')%nat
                then Raise PlannedNotImplemented else Return true,
                evaluate')) as Hall.
  { intros st sa Hsk. rewrite <- (app_nil_r evaluate') at 1.
    rewrite scan_kept by exact Hsk. cbn [scan].
    destruct (0 <? length evaluate')%nat; reflexivity. }
  rewrite Hall in Hagain by exact Hskip.
  rewrite (Hall stop_type' stop_args'); [exact Hagain|].
  eapply Forall_impl; [exact Hskip|].
  intros item. apply branch_skip_any.
Qed.

Lemma eval_again_witness :
  eval "TIMEOUT" [] [domain_rule "info" "k"]
  = Some (Raise PlannedNotImplemented, [domain_rule "info" "k"]).
Proof.
  destruct (eval_again "ANS" ["42"]
              [domain_rule "info" "k"; ans_rule ["42"]]
              [domain_rule "info" "k"] (Raise PlannedNotImplemented))
    as [_ Hany].
  - vm_compute. reflexivity.
  - apply Hany. right. reflexivity.
Defined.

(** On a rule list that [Task.__check_config] accepted, [Task.eval] never
    raises [KeyError]: it returns [True] with every rule consumed, returns
    [False], or raises [PlannedNotImplemented] with the domain-specific
    rules left, in their order. *)
Theorem eval_checked_no_key_error (stop_type : string)
    (stop_args : list string) (evaluate : list eval_item) :
  Forall (fun item => check_config_item item = true) evaluate ->
  exists r evaluate',
    eval stop_type stop_args evaluate = Some (r, evaluate')
    /\ ((r = Return true /\ evaluate' = [])
        \/ r = Return false
        \/ (r = Raise PlannedNotImplemented
            /\ evaluate' = List.filter is_domain evaluate
            /\ evaluate' <> [])).
Proof.
  intros Hwf. rewrite EvalFacts.eval_scan.
  destruct (EvalFacts.scan_verdict stop_type stop_args evaluate [] Hwf)
    as [Hfst Hsnd].
  destruct (scan stop_type stop_args [] evaluate) as [r evaluate'].
  cbn [fst snd app] in Hfst, Hsnd.
  exists r, evaluate'. split; [reflexivity|].
  destruct (forallb _ _); [|right; left; exact Hfst].
  specialize (Hsnd eq_refl). subst evaluate'.
  destruct (List.filter is_domain evaluate) as [|d ds].
  - left. split; [exact Hfst | reflexivity].
  - right. right. split; [exact Hfst|]. split; [reflexivity | discriminate].
Qed.

Lemma eval_checked_no_key_error_witness :
  exists r evaluate',
    eval "ANS" ["7"] [domain_rule "info" "k"; ans_rule ["42"]]
    = Some (r, evaluate')
    /\ ((r = Return true /\ evaluate' = [])
        \/ r = Return false
        \/ (r = Raise PlannedNotImplemented
            /\ evaluate'
               = List.filter is_domain [domain_rule "info" "k"; ans_rule ["42"]]
            /\ evaluate' <> [])).
Proof.
  apply eval_checked_no_key_error. repeat constructor.
Defined.

(** The verdict of an evaluation wrapped by [Task._stop_handler], on a
    checked rule list: [False] when an early-stop rule disagrees with the
    stop signal, in which case the evaluation method of the task class is
    not called; else [True] when there is no domain-specific rule; else
    what the method gives, and the method finds exactly the
    domain-specific rules, in their order. *)
Theorem stop_wrapper_verdict (method : list eval_item -> result)
    (stop_type : string) (stop_args : list string)
    (evaluate : list eval_item) :
  Forall (fun item => check_config_item item = true) evaluate ->
  fst <$> _stop_wrapper method stop_type stop_args evaluate
  = Some (if forallb (matches stop_type stop_args)
                     (List.filter is_early_stop evaluate)
          then match List.filter is_domain evaluate with
               | [] => Return true
               | d :: ds => method (d :: ds)
               end
          else Return false).
Proof.
  intros Hwf. unfold _stop_wrapper. rewrite EvalFacts.eval_scan.
  destruct (EvalFacts.scan_verdict stop_type stop_args evaluate [] Hwf)
    as [Hfst Hsnd].
  destruct (scan stop_type stop_args [] evaluate) as [r evaluate'].
  cbn [fst snd app] in Hfst, Hsnd.
  destruct (forallb _ _).
  - specialize (Hsnd eq_refl). subst evaluate' r.
    destruct (List.filter is_domain evaluate) as [|d ds]; reflexivity.
  - subst r. reflexivity.
Qed.

Lemma stop_wrapper_verdict_witness :
  fst <$> _stop_wrapper (fun rules => Return (length rules =? 1)%nat)
                        "ANS" ["42"]
                        [domain_rule "info" "k"; ans_rule ["42"]]
  = Some (Return true).
Proof.
  apply (stop_wrapper_verdict (fun rules => Return (length rules =? 1)%nat)
           "ANS" ["42"] [domain_rule "info" "k"; ans_rule ["42"]]).
  repeat constructor.
Defined.

Lemma config_wrapper_filter {S : Type} (method : S -> eval_item -> exn + S)
    (evaluate : list eval_item) (s : S) :
  Forall (fun item => check_config_item item = true) evaluate ->
  _config_wrapper method evaluate s
  = _config_wrapper method (List.filter is_domain evaluate) s.
Proof.
  intros Hwf. revert s.
  induction Hwf as [|item rest Hitem _ IH]; intros s; [reflexivity|].
  cbn [_config_wrapper List.filter].
  unfold check_config_item in Hitem. unfold is_domain at 1.
  destruct (item !! "type") as [ty|] eqn:Hty; [|discriminate Hitem].
  destruct (bool_decide (ty = VStr EARLY_STOP)) eqn:Hes; cbn [negb].
  - apply IH.
  - cbn [_config_wrapper]. rewrite Hty, Hes.
    destruct (method s item); [reflexivity | apply IH].
Qed.

(** [Task._config_handler] and [Task.eval] agree on what a
    domain-specific rule is: on a checked rule list the method wrapped by
    [_config_handler] is called on the domain-specific rules, in order and
    on nothing else, and these are the rules that the evaluation method of
    the task class finds when [Task.eval] defers to it. *)
Theorem config_wrapper_visits_deferred_rules (evaluate : list eval_item) :
  Forall (fun item => check_config_item item = true) evaluate ->
  _config_wrapper (fun visited item => inr (visited ++ [item])) evaluate []
  = inr (List.filter is_domain evaluate)
  /\ (forall (S : Type) (method : S -> eval_item -> exn + S) (s : S),
        _config_wrapper method evaluate s
        = _config_wrapper method (List.filter is_domain evaluate) s)
  /\ (forall stop_type stop_args evaluate',
        eval stop_type stop_args evaluate
        = Some (Raise PlannedNotImplemented, evaluate') ->
        evaluate' = List.filter is_domain evaluate).
Proof.
  intros Hwf. split; [|split].
  - assert (forall visited,
               _config_wrapper (fun visited item => inr (visited ++ [item]))
                               evaluate visited
               = inr (visited ++ List.filter is_domain evaluate)) as H.
    { induction Hwf as [|item rest Hitem _ IH]; intros visited.
      - cbn. rewrite app_nil_r. reflexivity.
      - cbn [_config_wrapper List.filter].
        unfold check_config_item in Hitem. unfold is_domain at 1.
        destruct (item !! "type") as [ty|] eqn:Hty; [|discriminate Hitem].
        destruct (bool_decide (ty = VStr EARLY_STOP)); cbn [negb].
        + apply IH.
        + rewrite IH, <- app_assoc. reflexivity. }
    apply (H []).
  - intros S method s. apply config_wrapper_filter. exact Hwf.
  - intros stop_type stop_args evaluate' Heval.
    rewrite EvalFacts.eval_scan in Heval. injection Heval as Heval.
    destruct (EvalFacts.scan_verdict stop_type stop_args evaluate [] Hwf)
      as [Hfst Hsnd].
    rewrite Heval in Hfst, Hsnd. cbn [fst snd app] in Hfst, Hsnd.
    destruct (forallb _ _); [|discriminate Hfst].
    apply Hsnd. reflexivity.
Qed.

Lemma config_wrapper_visits_deferred_rules_witness :
  _config_wrapper (fun visited item => inr (visited ++ [item]))
                  [ans_rule ["42"]; domain_rule "info" "k"] []
  = inr [domain_rule "info" "k"].
Proof.
  destruct (config_wrapper_visits_deferred_rules
              [ans_rule ["42"]; domain_rule "info" "k"]) as [H _].
  - repeat constructor.
  - rewrite H. vm_compute. reflexivity.
Defined.

End HandlersFacts.

(** ** More on Task.predict and Task._step *)
Module PredictMore.
Import Step Predict TaskRun.

Local Open Scope Z_scope.

Section Loop.
Variables (penalty : Z * Z) (community : Z * Z -> list response_code)
          (single_step : bool).

(** With enough fuel the loop ends, whatever the steps do, and the state
    it ends in has made no more passes than the budget allowed. *)
Lemma predict_loop_ends (fuel : nat) (st : state) :
  0 <= snd penalty ->
  (Z.to_nat (steps st - step_index st) < fuel)%nat ->
  exists out st',
    predict_loop penalty community single_step fuel st = Some (out, st')
    /\ step_index st <= step_index st'
    /\ step_index st' <= Z.max (step_index st) (steps st)
    /\ steps st' <= steps st.
Proof.
  intros HR. revert st.
  induction fuel as [|fuel IH]; intros st Hfuel; [lia|].
  cbn [predict_loop].
  destruct (step_index st <? steps st) eqn:Hlt.
  - apply Z.ltb_lt in Hlt.
    destruct (_step single_step (community (step_index st, steps st)))
      as [invalid|stop_type stop_args|e].
    + pose proof (PredictFacts.body_step_index penalty st invalid) as Hidx.
      pose proof (PredictFacts.body_steps_le penalty st invalid HR) as Hst.
      destruct (IH (body penalty st invalid)) as (out & st' & -> & H1 & H2 & H3);
        [lia|].
      exists out, st'. split; [reflexivity|]. lia.
    + exists (Signal stop_type stop_args), st. split; [reflexivity|]. lia.
    + exists (Error e), st. split; [reflexivity|]. lia.
  - apply Z.ltb_ge in Hlt.
    exists (Signal TIMEOUT []), st. split; [reflexivity|]. lia.
Qed.

(** Without a stop or a failure, and with a penalty that cannot fire
    within the budget or takes nothing off it, the loop makes exactly as
    many passes as the budget says. *)
Lemma predict_loop_full_budget (steps0 : Z) (fuel : nat) (st : state) :
  snd penalty = 0 \/ steps0 < fst penalty ->
  (forall i s, exists invalid,
        _step single_step (community (i, s)) = Liquid invalid) ->
  steps st = steps0 ->
  0 <= liquid st <= step_index st ->
  (Z.to_nat (steps st - step_index st) < fuel)%nat ->
  exists st',
    predict_loop penalty community single_step fuel st
    = Some (Signal TIMEOUT [], st')
    /\ step_index st' = Z.max (step_index st) steps0
    /\ steps st' = steps0.
Proof.
  intros Hpen Hliquid. revert st.
  induction fuel as [|fuel IH]; intros st Hsteps Hinv Hfuel; [lia|].
  cbn [predict_loop].
  destruct (step_index st <? steps st) eqn:Hlt.
  - apply Z.ltb_lt in Hlt.
    destruct (Hliquid (step_index st) (steps st)) as [invalid ->].
    assert (Hbody : steps (body penalty st invalid) = steps0
                    /\ 0 <= liquid (body penalty st invalid)
                       <= step_index (body penalty st invalid)
                    /\ step_index (body penalty st invalid)
                       = step_index st + 1).
    { unfold body. destruct (_ >=? _) eqn:Hge; cbn [steps liquid step_index].
      - rewrite Z.geb_leb in Hge. apply Z.leb_le in Hge.
        destruct Hpen as [-> | Hpen]; [lia|]. destruct invalid; lia.
      - destruct invalid; lia. }
    destruct Hbody as (Hb1 & Hb2 & Hb3).
    destruct (IH (body penalty st invalid) Hb1 Hb2) as (st' & -> & H1 & H2);
      [lia|].
    exists st'. split; [reflexivity|]. lia.
  - apply Z.ltb_ge in Hlt. exists st. split; [reflexivity|]. lia.
Qed.

(** The tally goes up with every liquid step and is left alone by the
    other steps, as long as it stays below the threshold. *)
Lemma passes_below_threshold (invalids : list bool) (st : state) :
  liquid st + Z.of_nat (length (List.filter id invalids)) < fst penalty ->
  passes penalty invalids st
  = {| liquid := liquid st + Z.of_nat (length (List.filter id invalids));
       step_index := step_index st + Z.of_nat (length invalids);
       steps := steps st |}.
Proof.
  revert st. induction invalids as [|invalid rest IH]; intros st Hlt.
  - cbn. destruct st. cbn. f_equal; lia.
  - cbn [passes fold_left].
    assert (Hbody : body penalty st invalid
                    = {| liquid := liquid st + (if invalid then 1 else 0);
                         step_index := step_index st + 1;
                         steps := steps st |}).
    { unfold body. destruct (_ >=? _) eqn:Hge; [|reflexivity].
      rewrite Z.geb_leb in Hge. apply Z.leb_le in Hge.
      cbn [List.filter length] in Hlt. destruct invalid; cbn [id length] in Hlt; lia. }
    fold (passes penalty rest (body penalty st invalid)).
    rewrite Hbody, IH; cbn [liquid step_index steps];
      cbn [List.filter length] in *; destruct invalid; cbn [id length] in *;
      try (f_equal; lia); lia.
Qed.

End Loop.

(** For a penalty whose reduction is not negative, [Task.predict] ends
    whatever the steps do (return, stop or raise); it makes at most
    [self.steps] passes and never raises the budget. *)
Theorem predict_ends (penalty : Z * Z)
    (community : Z * Z -> list response_code) (single_step : bool)
    (steps0 : Z) :
  0 <= snd penalty ->
  exists out st,
    predict penalty community single_step steps0 = Some (out, st)
    /\ 0 <= step_index st <= Z.max 0 steps0
    /\ steps st <= steps0.
Proof.
  intros HR. unfold predict.
  destruct (predict_loop_ends penalty community single_step
              (S (Z.to_nat steps0))
              {| liquid := 0; step_index := 0; steps := steps0 |} HR)
    as (out & st & Hloop & H1 & H2 & H3); [cbn; lia|].
  exists out, st. split; [exact Hloop|]. cbn in *. lia.
Qed.

Lemma predict_ends_witness :
  exists out st,
    predict (2, 3) (fun '(i, _) => if (i <? 4) then [Code (Returns None)]
                                   else [Code (Terminates "DONE" [])])
            false 10
    = Some (out, st)
    /\ 0 <= step_index st <= Z.max 0 10
    /\ steps st <= 10.
Proof.
  apply predict_ends. cbn. lia.
Defined.

(** With a penalty that takes nothing off the budget, as the default
    [(2147438648, 0)], or with a threshold above the budget, a run in
    which no step stops or raises makes exactly [self.steps] passes and
    ends with TIMEOUT; the budget is what it was. *)
Theorem predict_full_budget (penalty : Z * Z)
    (community : Z * Z -> list response_code) (single_step : bool)
    (steps0 : Z) :
  snd penalty = 0 \/ steps0 < fst penalty ->
  (forall i s, exists invalid,
        _step single_step (community (i, s)) = Liquid invalid) ->
  exists st,
    predict penalty community single_step steps0
    = Some (Signal TIMEOUT [], st)
    /\ step_index st = Z.max 0 steps0
    /\ steps st = steps0.
Proof.
  intros Hpen Hliquid. unfold predict.
  apply (predict_loop_full_budget penalty community single_step steps0);
    try assumption; cbn; lia.
Qed.

Lemma predict_full_budget_witness :
  exists st,
    predict (2147438648, 0) (fun _ => [Code (Returns (Some false))]) false 15
    = Some (Signal TIMEOUT [], st)
    /\ step_index st = Z.max 0 15
    /\ steps st = 15.
Proof.
  apply predict_full_budget.
  - left. reflexivity.
  - intros i s. exists true. reflexivity.
Defined.

(** The tally [liquid] counts the liquid steps since it was last set to
    zero, in a row or not: after [T - 1] liquid steps with any number of
    other steps among them the budget is untouched, and the next liquid
    step takes [R] off it and sets the tally to zero. *)
Theorem penalty_counts_liquid_steps_not_in_a_row (T R : Z)
    (invalids : list bool) (st : state) :
  liquid st = 0 ->
  Z.of_nat (length (List.filter id invalids)) = T - 1 ->
  passes (T, R) invalids st
  = {| liquid := T - 1;
       step_index := step_index st + Z.of_nat (length invalids);
       steps := steps st |}
  /\ body (T, R) (passes (T, R) invalids st) true
     = {| liquid := 0;
          step_index := step_index st + Z.of_nat (length invalids) + 1;
          steps := steps st - R |}.
Proof.
  intros H0 Hcount.
  assert (Hp : passes (T, R) invalids st
               = {| liquid := T - 1;
                    step_index := step_index st + Z.of_nat (length invalids);
                    steps := steps st |}).
  { rewrite passes_below_threshold by (cbn [fst]; lia).
    f_equal. lia. }
  split; [exact Hp|]. rewrite Hp. unfold body. cbn [liquid fst snd step_index steps].
  destruct (T - 1 + 1 >=? T) eqn:Hge; [reflexivity|].
  rewrite Z.geb_leb in Hge. apply Z.leb_gt in Hge. lia.
Qed.

Lemma penalty_counts_liquid_steps_not_in_a_row_witness :
  body (3, 2) (passes (3, 2) [true; false; false; true; false]
                 {| liquid := 0; step_index := 0; steps := 10 |}) true
  = {| liquid := 0; step_index := 6; steps := 8 |}.
Proof.
  apply (penalty_counts_liquid_steps_not_in_a_row 3 2
           [true; false; false; true; false]
           {| liquid := 0; step_index := 0; steps := 10 |});
    reflexivity.
Defined.

End PredictMore.

(** ** Prediction followed by evaluation; the debug path of Task._step *)
Module TaskRunFacts.
Import Step Predict Eval Handlers TaskRun.

Local Open Scope Z_scope.

Lemma mismatch_fails (stop_type : string) (stop_args : list string)
    (evaluate : list eval_item) (item : eval_item) :
  In item evaluate ->
  is_early_stop item = true ->
  matches stop_type stop_args item = false ->
  forallb (matches stop_type stop_args) (List.filter is_early_stop evaluate)
  = false.
Proof.
  intros Hin Hes Hno.
  destruct (forallb _ _) eqn:Hall; [|reflexivity].
  rewrite forallb_forall in Hall.
  rewrite <- Hno. symmetry. apply Hall, List.filter_In. split; assumption.
Qed.

(** A task that asks for an explicit way of stopping fails when the step
    budget runs out: if no step stops or raises, and a checked rule list
    holds an early-stop rule whose expected kind is not TIMEOUT, then
    prediction followed by evaluation gives [False], and the evaluation
    method of the task class is not consulted. *)
Theorem timeout_fails_explicit_stop (penalty : Z * Z)
    (community : Z * Z -> list response_code) (single_step : bool)
    (steps0 : Z) (method : list eval_item -> result)
    (evaluate : list eval_item) (item : eval_item) :
  0 <= snd penalty ->
  (forall i s, exists invalid,
        _step single_step (community (i, s)) = Liquid invalid) ->
  Forall (fun item => check_config_item item = true) evaluate ->
  In item evaluate ->
  is_early_stop item = true ->
  item !! "value" <> Some (VStr TIMEOUT) ->
  fst <$> predict_then_eval penalty community single_step steps0 method evaluate
  = Some (Return false).
Proof.
  intros HR Hliquid Hwf Hin Hes Hval. unfold predict_then_eval, predict.
  destruct (PredictFacts.predict_loop_timeout penalty community single_step
              (S (Z.to_nat steps0))
              {| liquid := 0; step_index := 0; steps := steps0 |} HR Hliquid)
    as (st & -> & _); [cbn; lia|].
  unfold _stop_wrapper. rewrite EvalFacts.eval_scan.
  destruct (EvalFacts.scan_verdict TIMEOUT [] evaluate [] Hwf) as [Hfst _].
  assert (Hmis : forallb (fun item => matches TIMEOUT [] item)
                         (List.filter is_early_stop evaluate) = false).
  { apply (mismatch_fails TIMEOUT [] evaluate item Hin Hes).
    unfold matches. rewrite (bool_decide_eq_false_2 _ Hval). reflexivity. }
  rewrite Hmis in Hfst.
  destruct (scan TIMEOUT [] [] evaluate) as [r evaluate'].
  cbn [fst] in Hfst. subst r. reflexivity.
Qed.

Lemma timeout_fails_explicit_stop_witness :
  fst <$> predict_then_eval (3, 2) (fun _ => [Code (Returns None)]) false 5
            (fun _ => Return true)
            [domain_rule "info" "k"; ans_rule ["42"]]
  = Some (Return false).
Proof.
  apply (timeout_fails_explicit_stop (3, 2) (fun _ => [Code (Returns None)])
           false 5 (fun _ => Return true)
           [domain_rule "info" "k"; ans_rule ["42"]] (ans_rule ["42"])).
  - cbn. lia.
  - intros i s. exists false. reflexivity.
  - repeat constructor.
  - right. left. reflexivity.
  - vm_compute. reflexivity.
  - vm_compute. discriminate.
Defined.

Lemma run_batch_returns (items results : list (option bool)) :
  run_batch (map Returns items) results = inr (results ++ items).
Proof.
  revert results.
  induction items as [|item items IH]; intros results; cbn [map run_batch].
  - rewrite app_nil_r. reflexivity.
  - rewrite IH, <- app_assoc. reflexivity.
Qed.

Lemma last_default {A : Type} (x : A) (l : list A) (d d' : A) :
  List.last (x :: l) d = List.last (x :: l) d'.
Proof.
  revert x. induction l as [|y l IH]; intros x; [reflexivity|].
  change (List.last (y :: l) d = List.last (y :: l) d'). apply IH.
Qed.

Lemma run_batches_returns (batches : list (list (option bool)))
    (results : list (option bool)) :
  run_batches (map (fun batch => Batch (map Returns batch)) batches) results
  = Liquid (all_false (List.last batches results)).
Proof.
  revert results.
  induction batches as [|batch batches IH]; intros results; [reflexivity|].
  cbn [map run_batches]. rewrite run_batch_returns, IH. cbn [app].
  destruct batches as [|next batches]; [reflexivity|].
  f_equal. f_equal.
  change (List.last (next :: batches) batch
          = List.last (next :: batches) results).
  apply last_default.
Qed.

(** In the debug path of [Task._step] (nested batches, SINGLE_STEP set)
    the list [results] is started anew for every batch, so the step is
    liquid exactly when every result of the last batch is [False]: the
    results of the batches before it do not count. *)
Theorem step_debug_last_batch (batches : list (list (option bool))) :
  batches <> [] ->
  _step true (map (fun batch => Batch (map Returns batch)) batches)
  = Liquid (all_false (List.last batches [])).
Proof.
  intros Hne. destruct batches as [|batch batches]; [contradiction|].
  cbn [map _step].
  change (Batch (map Returns batch)
            :: map (fun batch => Batch (map Returns batch)) batches)
    with (map (fun batch => Batch (map Returns batch)) (batch :: batches)).
  apply run_batches_returns.
Qed.

Lemma step_debug_last_batch_witness :
  _step true [Batch [Returns (Some true); Returns None];
              Batch [Returns (Some false)]]
  = Liquid true.
Proof.
  apply (step_debug_last_batch [[Some true; None]; [Some false]]).
  discriminate.
Defined.

End TaskRunFacts.

(** ** More on the shard of a process *)
Module ShardMore.
Import Shard.

Local Open Scope Z_scope.

(** A process whose [INDEX] is not below [SPLITE] gets no item. *)
Theorem shard_index_out_of_range {A : Type} (all_pth : list A) (S I : Z) :
  1 <= S -> S <= I ->
  selected_pth all_pth S I = inr [].
Proof.
  intros HS HI. unfold selected_pth.
  set (N := Z.of_nat (length all_pth)).
  assert (HN : 0 <= N) by (subst N; lia).
  pose proof (Z.div_mod N S ltac:(lia)) as Hdm.
  pose proof (Z.mod_pos_bound N S ltac:(lia)) as Hmod.
  assert (0 <= N / S) as Hq by (apply Z.div_pos; lia).
  rewrite ShardFacts.bounds_inr by assumption.
  destruct (I <? N mod S) eqn:Hlt; [apply Z.ltb_lt in Hlt; lia|].
  set (start := N mod S * (N / S + 1) + (I - N mod S) * (N / S)).
  assert (Hstart : N <= start) by (subst start; nia).
  rewrite Z.min_r by lia.
  unfold slice. fold N.
  destruct (N <? 0) eqn:H1; [apply Z.ltb_lt in H1; lia|].
  destruct (start <? 0) eqn:H2; [apply Z.ltb_lt in H2; lia|].
  rewrite Z.min_l, Z.min_r by lia.
  rewrite Z.sub_diag. reflexivity.
Qed.

Lemma shard_index_out_of_range_witness :
  selected_pth ["a"; "b"; "c"]%string 2 2 = inr [].
Proof.
  apply shard_index_out_of_range; lia.
Defined.

(** Every index of the listing is in the range of exactly one shard. *)
Theorem shard_owner_unique (N S j : Z) :
  1 <= S -> 0 <= j < N ->
  exists I,
    0 <= I < S
    /\ (exists start end_, bounds N S I = inr (start, end_) /\ start <= j < end_)
    /\ (forall I', 0 <= I' < S ->
          (exists start end_,
              bounds N S I' = inr (start, end_) /\ start <= j < end_) ->
          I' = I).
Proof.
  intros HS Hj.
  pose proof (Z.div_mod N S ltac:(lia)) as Hdm.
  pose proof (Z.mod_pos_bound N S ltac:(lia)) as Hmod.
  assert (0 <= N / S) as Hq by (apply Z.div_pos; lia).
  set (q := N / S) in *. set (r := N mod S) in *.
  assert (Hex : exists I, 0 <= I < S
                          /\ I * q + Z.min I r <= j
                             < (I + 1) * q + Z.min (I + 1) r).
  { destruct (Z_lt_ge_dec j (r * (q + 1))) as [Hlow | Hhigh].
    - exists (j / (q + 1)).
      pose proof (Z.div_mod j (q + 1) ltac:(lia)) as Hd.
      pose proof (Z.mod_pos_bound j (q + 1) ltac:(lia)) as Hm.
      assert (0 <= j / (q + 1)) by (apply Z.div_pos; lia).
      assert (j / (q + 1) < r) by nia.
      split; [lia|]. rewrite !Z.min_l by lia. nia.
    - assert (0 < q) by nia.
      exists (r + (j - r * (q + 1)) / q).
      pose proof (Z.div_mod (j - r * (q + 1)) q ltac:(lia)) as Hd.
      pose proof (Z.mod_pos_bound (j - r * (q + 1)) q ltac:(lia)) as Hm.
      assert (0 <= (j - r * (q + 1)) / q) by (apply Z.div_pos; lia).
      assert (r + (j - r * (q + 1)) / q < S) by nia.
      split; [lia|]. rewrite !Z.min_r by lia. nia. }
  destruct Hex as (I & HI & Hin).
  exists I. split; [exact HI|]. split.
  - destruct (ShardFacts.bounds_range N S I ltac:(lia) HS HI)
      as (start & end_ & Hb & Hst & Hen).
    exists start, end_. split; [exact Hb|]. fold q r in Hst, Hen. lia.
  - intros I' HI' (start & end_ & Hb & Hin').
    destruct (ShardFacts.bounds_range N S I' ltac:(lia) HS HI')
      as (start' & end' & Hb' & Hst & Hen).
    rewrite Hb in Hb'. injection Hb' as <- <-. fold q r in Hst, Hen.
    destruct (Z.lt_trichotomy I' I) as [Hlt | [Heq | Hgt]]; [|exact Heq|].
    + assert ((I' + 1) * q + Z.min (I' + 1) r <= I * q + Z.min I r) by nia.
      lia.
    + assert ((I + 1) * q + Z.min (I + 1) r <= I' * q + Z.min I' r) by nia.
      lia.
Qed.

Lemma shard_owner_unique_witness :
  exists I,
    0 <= I < 3
    /\ (exists start end_, bounds 10 3 I = inr (start, end_) /\ start <= 5 < end_)
    /\ (forall I', 0 <= I' < 3 ->
          (exists start end_,
              bounds 10 3 I' = inr (start, end_) /\ start <= 5 < end_) ->
          I' = I).
Proof.
  apply shard_owner_unique; lia.
Defined.

End ShardMore.

(** ** The plan of a Tester *)
Module PlanFacts.
Import Group Plan.

(** *** The order of strings *)

Lemma ascii_compare_refl (a : Ascii.ascii) : Ascii.compare a a = Eq.
Proof. unfold Ascii.compare. apply N.compare_refl. Qed.

Lemma string_compare_refl (s : string) : String.compare s s = Eq.
Proof.
  induction s as [|a s IH]; [reflexivity|].
  cbn [String.compare]. rewrite ascii_compare_refl. exact IH.
Qed.

Lemma ascii_compare_lt_trans (a b c : Ascii.ascii) :
  Ascii.compare a b = Lt -> Ascii.compare b c = Lt -> Ascii.compare a c = Lt.
Proof.
  unfold Ascii.compare. rewrite !N.compare_lt_iff. apply N.lt_trans.
Qed.

Lemma string_compare_lt_trans (s1 s2 s3 : string) :
  String.compare s1 s2 = Lt -> String.compare s2 s3 = Lt ->
  String.compare s1 s3 = Lt.
Proof.
  revert s2 s3.
  induction s1 as [|a s1 IH]; intros [|b s2] [|c s3]; cbn [String.compare];
    try discriminate; try reflexivity.
  destruct (Ascii.compare a b) eqn:Hab; try discriminate;
    destruct (Ascii.compare b c) eqn:Hbc; try discriminate; intros H1 H2.
  - apply Ascii.compare_eq_iff in Hab, Hbc. subst b c.
    rewrite ascii_compare_refl. eapply IH; eassumption.
  - apply Ascii.compare_eq_iff in Hab. subst b. rewrite Hbc. reflexivity.
  - apply Ascii.compare_eq_iff in Hbc. subst c. rewrite Hab. reflexivity.
  - rewrite (ascii_compare_lt_trans a b c Hab Hbc). reflexivity.
Qed.

Lemma ltb_irrefl (s : string) : String.ltb s s = false.
Proof. unfold String.ltb. rewrite string_compare_refl. reflexivity. Qed.

Lemma ltb_trans (s1 s2 s3 : string) :
  String.ltb s1 s2 = true -> String.ltb s2 s3 = true ->
  String.ltb s1 s3 = true.
Proof.
  unfold String.ltb.
  destruct (String.compare s1 s2) eqn:H12; try discriminate.
  destruct (String.compare s2 s3) eqn:H23; try discriminate.
  rewrite (string_compare_lt_trans s1 s2 s3 H12 H23). reflexivity.
Qed.

Lemma ltb_trichotomy (s1 s2 : string) :
  String.ltb s1 s2 = true \/ String.ltb s2 s1 = true \/ s1 = s2.
Proof.
  unfold String.ltb. rewrite (String.compare_antisym s1 s2).
  destruct (String.compare s2 s1) eqn:H; cbn [CompOpp].
  - right. right. symmetry. apply String.compare_eq_iff. exact H.
  - right. left. reflexivity.
  - left. reflexivity.
Qed.

End PlanFacts.
